(** * Resource-identifier codec of go-sourcegraph

    A shallow embedding of the RepoSpec / RepoRevSpec / DeltaSpec codec
    ([sourcegraph/repositories.go], [sourcegraph/deltas.go]) and of the
    def-delta classification, together with the parts of the Go standard
    library the codec calls ([strings], [strconv], [encoding/base64]).

    Conventions.
    - A Go [string] is a sequence of bytes: Rocq's [string] (a list of
      8-bit [ascii]).  [[]byte(s)] and [string(b)] are the identity.
    - A Go [int] is a 64-bit signed integer, embedded in [Z]; the range
      is recorded by [is_int].
    - A Go [map[string]string] is a [gmap string string]; reading a
      missing key gives the zero value [""].
    - A Go result pair [(T, error)] is [T * option error]; [None] is the
      [nil] error.
    - A run-time panic is the [Panic] outcome of the [outcome] monad. *)

From Stdlib Require Import ZArith NArith Ascii String Lia Bool.
From stdpp Require Import base option gmap strings.

Local Open Scope Z_scope.

#[local] Arguments String.append !s1 s2 : simpl nomatch.

(** ** Outcomes: normal return or panic *)

Inductive outcome (A : Type) : Type :=
| Ret (a : A)
| Panic (msg : string).
Arguments Ret {A} a.
Arguments Panic {A} msg.

#[global] Instance outcome_ret : MRet outcome := fun _ a => Ret a.
#[global] Instance outcome_bind : MBind outcome := fun _ _ f m =>
  match m with
  | Ret a => f a
  | Panic msg => Panic msg
  end.

Definition panics {A} (o : outcome A) : Prop :=
  match o with Ret _ => False | Panic _ => True end.

(** ** Package [strings] *)

Module strings.

Definition len (s : string) : Z := Z.of_nat (String.length s).

(** [strings.HasPrefix(s, prefix)]: the receiver first, the prefix second. *)
Definition HasPrefix (s prefix : string) : bool := String.prefix prefix s.

Fixpoint drop (n : nat) (s : string) : string :=
  match n, s with
  | O, _ => s
  | S n', String _ s' => drop n' s'
  | S _, EmptyString => EmptyString
  end.

Fixpoint take (n : nat) (s : string) : string :=
  match n, s with
  | O, _ => EmptyString
  | S n', String c s' => String c (take n' s')
  | S _, EmptyString => EmptyString
  end.

(** The slice expression [s[lo:hi]]; out-of-range bounds panic. *)
Definition slice (s : string) (lo hi : Z) : outcome string :=
  if (0 <=? lo) && (lo <=? hi) && (hi <=? len s)
  then Ret (take (Z.to_nat (hi - lo)) (drop (Z.to_nat lo) s))
  else Panic "slice bounds out of range".

(** [s[lo:]] *)
Definition slice_from (s : string) (lo : Z) : outcome string :=
  slice s lo (len s).

(** [s[:hi]] *)
Definition slice_to (s : string) (hi : Z) : outcome string :=
  slice s 0 hi.

Fixpoint index_nat (s substr : string) : option nat :=
  if String.prefix substr s then Some O
  else match s with
       | EmptyString => None
       | String _ s' => S <$> index_nat s' substr
       end.

(** [strings.Index(s, substr)]: first occurrence, or -1. *)
Definition Index (s substr : string) : Z :=
  match index_nat s substr with
  | Some i => Z.of_nat i
  | None => -1
  end.

(** Number of occurrences of the byte [c] in [s]. *)
Fixpoint count (c : ascii) (s : string) : nat :=
  match s with
  | EmptyString => O
  | String x s' => (if Ascii.eqb x c then 1 else 0) + count c s'
  end.

End strings.

(** ** Errors *)

Inductive num_err := ErrSyntax | ErrRange.

Inductive error : Type :=
| ErrorsNew (msg : string)                       (* errors.New(msg) *)
| FmtErrorf (format : string) (args : list string) (* fmt.Errorf(format, args...) *)
| NumError (func num : string) (err : num_err)   (* *strconv.NumError *)
| CorruptInputError.                             (* base64.CorruptInputError; the offset is not tracked *)

(** ** Package [strconv] *)

Module strconv.

Definition IntSize : Z := 64.
Definition maxUint64 : Z := 2 ^ 64 - 1.

Definition is_int (z : Z) : Prop := - 2 ^ 63 <= z < 2 ^ 63.

Definition digit_char (d : Z) : ascii := ascii_of_N (Z.to_N (48 + d)).

(** The digit loop of [formatBits] in base 10: the digits of [u] are
    pushed in front of [acc], least significant first.  [fuel] bounds
    the number of iterations; it is the binary length of [u], which is
    never less than the decimal one. *)
Fixpoint formatBits (fuel : nat) (u : Z) (acc : string) : string :=
  match fuel with
  | O => acc
  | S f =>
      if 10 <=? u
      then formatBits f (u / 10) (String (digit_char (u mod 10)) acc)
      else String (digit_char u) acc
  end.

Definition FormatUint (u : Z) : string :=
  formatBits (S (Z.to_nat (Z.log2 u))) u "".

(** [strconv.Itoa(i)] = [FormatInt(int64(i), 10)]. *)
Definition Itoa (i : Z) : string :=
  if i <? 0 then String "-" (FormatUint (- i)) else FormatUint i.

Definition is_digit (c : ascii) : bool :=
  let n := Z.of_N (N_of_ascii c) in (48 <=? n) && (n <=? 57).

Definition digit_val (c : ascii) : Z := Z.of_N (N_of_ascii c) - 48.

(** The loop of [ParseUint(s, 10, 0)] on a non-empty [s]: [n] is the
    [uint64] accumulator.  Letters are digits of a base above 10 and so
    are syntax errors like every other non-digit byte. *)
Fixpoint parseUint_loop (s : string) (n : Z) : Z * option num_err :=
  match s with
  | EmptyString => (n, None)
  | String c s' =>
      if is_digit c then
        let d := digit_val c in
        let cutoff := maxUint64 / 10 + 1 in
        if cutoff <=? n then (maxUint64, Some ErrRange)
        else
          let n := n * 10 in
          let n1 := (n + d) mod 2 ^ 64 in
          if (n1 <? n) || (maxUint64 <? n1) then (maxUint64, Some ErrRange)
          else parseUint_loop s' n1
      else (0, Some ErrSyntax)
  end.

Definition ParseUint (s : string) : Z * option num_err :=
  match s with
  | EmptyString => (0, Some ErrSyntax)
  | _ => parseUint_loop s 0
  end.

(** The sign-and-range stage of [ParseInt]: a syntax error of
    [ParseUint] is passed on; otherwise (no error, or a range error with
    [un] at its maximum) the magnitude is checked against the [int]
    range. *)
Definition signed_result (neg : bool) (r : Z * option num_err) : Z * option num_err :=
  match r with
  | (_, Some ErrSyntax) => (0, Some ErrSyntax)
  | (un, _) =>
      let cutoff := 2 ^ (IntSize - 1) in
      if negb neg && (cutoff <=? un) then (cutoff - 1, Some ErrRange)
      else if neg && (cutoff <? un) then (- cutoff, Some ErrRange)
      else (if neg then - un else un, None)
  end.

(** [ParseInt(s, 10, 0)], the error kind only. *)
Definition ParseInt (s : string) : Z * option num_err :=
  match s with
  | EmptyString => (0, Some ErrSyntax)
  | String c s' =>
      let neg := Ascii.eqb c "-" in
      let body := if Ascii.eqb c "+" || neg then s' else s in
      signed_result neg (ParseUint body)
  end.

(** [strconv.Atoi(s)]: [ParseInt(s, 10, 0)] with the error's [Func] set
    to ["Atoi"] and its [Num] to the input. *)
Definition Atoi (s : string) : Z * option error :=
  match ParseInt s with
  | (i, Some e) => (i, Some (NumError "Atoi" s e))
  | (i, None) => (i, None)
  end.

(** *** Decimal literals, as the specification words them

    "A valid decimal integer": an optional sign, then one or more
    decimal digits, denoting a value that an [int] can hold.  These
    definitions follow the specification, not the parser above, and are
    what the parser is compared with. *)

Fixpoint all_digits (s : string) : bool :=
  match s with
  | EmptyString => true
  | String c s' => is_digit c && all_digits s'
  end.

(** Value of the digits of [s] read after the digits that gave [acc]. *)
Fixpoint decimal_value (s : string) (acc : Z) : Z :=
  match s with
  | EmptyString => acc
  | String c s' => decimal_value s' (acc * 10 + digit_val c)
  end.

Definition digits_value (s : string) : option Z :=
  match s with
  | EmptyString => None
  | _ => if all_digits s then Some (decimal_value s 0) else None
  end.

Definition signed_value (s : string) : option Z :=
  match s with
  | EmptyString => None
  | String c s' =>
      if Ascii.eqb c "-" then Z.opp <$> digits_value s'
      else if Ascii.eqb c "+" then digits_value s'
      else digits_value s
  end.

Definition decimal_int (s : string) : option Z :=
  match signed_value s with
  | Some v => if (- 2 ^ 63 <=? v) && (v <? 2 ^ 63) then Some v else None
  | None => None
  end.

End strconv.

(** ** Package [encoding/base64], the padded [URLEncoding] *)

Module base64.

Definition encodeURL : string :=
  "ABCDEFGHIJKLMNOPQRSTUVWXYZabcdefghijklmnopqrstuvwxyz0123456789-_".

Definition padChar : ascii := "=".

(** [enc.encode[i]] *)
Definition encode (i : N) : ascii :=
  match String.get (N.to_nat i) encodeURL with
  | Some c => c
  | None => zero
  end.

Fixpoint find_byte (c : ascii) (s : string) (i : N) : option N :=
  match s with
  | EmptyString => None
  | String x s' => if Ascii.eqb x c then Some i else find_byte c s' (N.succ i)
  end.

(** [enc.decodeMap[c]]; [None] stands for the invalid marker [0xFF]. *)
Definition decodeMap (c : ascii) : option N := find_byte c encodeURL 0.

Definition byte (n : N) : ascii := ascii_of_N (n mod 256).

Definition quantum (a b c : N) : N :=
  N.lor (N.lor (N.shiftl a 16) (N.shiftl b 8)) c.

Definition sextet (val : N) (sh : N) : ascii :=
  encode (N.land (N.shiftr val sh) 63).

(** [enc.Encode]: full 3-byte groups, then the 1- or 2-byte remainder
    with padding. *)
Fixpoint Encode (src : string) : string :=
  match src with
  | EmptyString => EmptyString
  | String a EmptyString =>
      let val := quantum (N_of_ascii a) 0 0 in
      String (sextet val 18) (String (sextet val 12)
        (String padChar (String padChar EmptyString)))
  | String a (String b EmptyString) =>
      let val := quantum (N_of_ascii a) (N_of_ascii b) 0 in
      String (sextet val 18) (String (sextet val 12)
        (String (sextet val 6) (String padChar EmptyString)))
  | String a (String b (String c rest)) =>
      let val := quantum (N_of_ascii a) (N_of_ascii b) (N_of_ascii c) in
      String (sextet val 18) (String (sextet val 12)
        (String (sextet val 6) (String (sextet val 0) (Encode rest))))
  end.

Definition EncodeToString (src : string) : string := Encode src.

Definition is_newline (c : ascii) : bool :=
  Ascii.eqb c "010" || Ascii.eqb c "013".

Fixpoint strip_newlines (s : string) : string :=
  match s with
  | EmptyString => EmptyString
  | String c s' =>
      if is_newline c then strip_newlines s' else String c (strip_newlines s')
  end.

Definition dquantum (x y z w : N) : N :=
  N.lor (N.lor (N.lor (N.shiftl x 18) (N.shiftl y 12)) (N.shiftl z 6)) w.

(** The quantum loop of [enc.Decode] on input without line breaks.  A
    quantum is four alphabet bytes, or two or three of them followed by
    padding at the very end of the input. *)
Fixpoint decode_quanta (s : string) : string + error :=
  match s with
  | EmptyString => inl EmptyString
  | String a (String b (String c (String d rest))) =>
      match decodeMap a, decodeMap b with
      | Some x, Some y =>
          match decodeMap c, decodeMap d with
          | Some z, Some w =>
              let val := dquantum x y z w in
              match decode_quanta rest with
              | inl out =>
                  inl (String (byte (N.shiftr val 16))
                        (String (byte (N.shiftr val 8))
                          (String (byte val) out)))
              | inr e => inr e
              end
          | Some z, None =>
              if Ascii.eqb d padChar && String.eqb rest EmptyString then
                let val := dquantum x y z 0 in
                inl (String (byte (N.shiftr val 16))
                      (String (byte (N.shiftr val 8)) EmptyString))
              else inr CorruptInputError
          | None, _ =>
              if Ascii.eqb c padChar && Ascii.eqb d padChar
                 && String.eqb rest EmptyString then
                let val := dquantum x y 0 0 in
                inl (String (byte (N.shiftr val 16)) EmptyString)
              else inr CorruptInputError
          end
      | _, _ => inr CorruptInputError
      end
  | _ => inr CorruptInputError
  end.

(** [enc.DecodeString]: ["\r"] and ["\n"] are ignored.  On an error the
    partial output is dropped (no caller here reads it). *)
Definition DecodeString (s : string) : string + error :=
  decode_quanta (strip_newlines s).

End base64.

(** ** [repositories.go] *)

Record RepoSpec : Type := mkRepoSpec {
  URI : string;
  RID : Z
}.

#[global] Instance RepoSpec_eq_dec : EqDecision RepoSpec.
Proof. solve_decision. Defined.

(** The zero value [RepoSpec{}]. *)
Definition RepoSpec_zero : RepoSpec := mkRepoSpec "" 0.

(** The route-variable map read like a Go map: a missing key reads [""]. *)
Definition get (m : gmap string string) (k : string) : string :=
  default "" (m !! k).

Definition PathComponent (s : RepoSpec) : outcome string :=
  if 0 <? RID s then
    Ret ("R$" +:+ strconv.Itoa (RID s))
  else if negb (String.eqb (URI s) "") then
    if strings.HasPrefix "sourcegraph.com/" (URI s) then
      strings.slice_from (URI s) (strings.len "sourcegraph.com/")
    else
      Ret (URI s)
  else Panic "empty RepoSpec".

Definition RepoSpec_RouteVars (s : RepoSpec) : outcome (gmap string string) :=
  pc ← PathComponent s;
  mret ({[ "RepoSpec" := pc ]} : gmap string string).

Definition ParseRepoSpec (pathComponent : string) : outcome (RepoSpec * option error) :=
  if String.eqb pathComponent "" then
    Ret (RepoSpec_zero, Some (ErrorsNew "empty repository spec"))
  else if strings.HasPrefix pathComponent "R$" then
    rest ← strings.slice_from pathComponent 2;
    let '(rid, err) := strconv.Atoi rest in
    Ret (mkRepoSpec "" rid, err)
  else
    let uri :=
      if strings.HasPrefix pathComponent "sourcegraph/"
      then "sourcegraph.com/" +:+ pathComponent
      else pathComponent in
    Ret (mkRepoSpec uri 0, None).

Definition UnmarshalRepoSpec (routeVars : gmap string string)
  : outcome (RepoSpec * option error) :=
  ParseRepoSpec (get routeVars "RepoSpec").

Record RepoRevSpec : Type := mkRepoRevSpec {
  Repo : RepoSpec;      (* the embedded RepoSpec *)
  Rev : string;
  CommitID : string
}.

Definition RepoRevSpec_zero : RepoRevSpec := mkRepoRevSpec RepoSpec_zero "" "".

Definition repoRevSpecCommitSep : string := "===".

Definition RevPathComponent (s : RepoRevSpec) : outcome string :=
  if String.eqb (Rev s) "" && negb (String.eqb (CommitID s) "") then
    Panic ("invalid empty Rev but non-empty CommitID (" +:+ CommitID s +:+ ")")
  else if negb (String.eqb (CommitID s) "") then
    Ret (Rev s +:+ repoRevSpecCommitSep +:+ CommitID s)
  else Ret (Rev s).

Definition RepoRevSpec_RouteVars (s : RepoRevSpec) : outcome (gmap string string) :=
  m ← RepoSpec_RouteVars (Repo s);
  r ← RevPathComponent s;
  mret (<[ "Rev" := r ]> m).

Definition UnmarshalRepoRevSpec (routeVars : gmap string string)
  : outcome (RepoRevSpec * option error) :=
  r ← UnmarshalRepoSpec routeVars;
  match r with
  | (_, Some err) => Ret (RepoRevSpec_zero, Some err)
  | (repoSpec, None) =>
      let revStr := get routeVars "Rev" in
      let i := strings.Index revStr repoRevSpecCommitSep in
      split ←
        (if i =? -1 then Ret (revStr, "")
         else
           rev ← strings.slice_to revStr i;
           cid ← strings.slice_from revStr (i + strings.len repoRevSpecCommitSep);
           Ret (rev, cid));
      let '(rev, cid) := split in
      if String.eqb rev "" && negb (String.eqb cid "") then
        Ret (RepoRevSpec_zero,
             Some (FmtErrorf "invalid empty Rev but non-empty CommitID (%q)" [cid]))
      else Ret (mkRepoRevSpec repoSpec rev cid, None)
  end.

(** ** [deltas.go] *)

Record DeltaSpec : Type := mkDeltaSpec {
  Base : RepoRevSpec;
  Head : RepoRevSpec
}.

Definition DeltaSpec_zero : DeltaSpec := mkDeltaSpec RepoRevSpec_zero RepoRevSpec_zero.

Definition encodeCrossRepoRevSpecForDeltaHeadRev (rr : RepoRevSpec) : outcome string :=
  pc ← PathComponent (Repo rr);
  rev ← RevPathComponent rr;
  Ret (base64.EncodeToString pc +:+ ":" +:+ rev).

Definition DeltaSpec_RouteVars (s : DeltaSpec) : outcome (gmap string string) :=
  m ← RepoRevSpec_RouteVars (Base s);
  if bool_decide (Repo (Base s) = Repo (Head s)) then
    r ← RevPathComponent (Head s);
    Ret (<[ "DeltaHeadRev" := r ]> m)
  else
    r ← encodeCrossRepoRevSpecForDeltaHeadRev (Head s);
    Ret (<[ "DeltaHeadRev" := r ]> m).

Definition UnmarshalDeltaSpec (routeVars : gmap string string)
  : outcome (DeltaSpec * option error) :=
  r ← UnmarshalRepoRevSpec routeVars;
  match r with
  | (_, Some err) => Ret (DeltaSpec_zero, Some err)
  | (base, None) =>
      let dhr := get routeVars "DeltaHeadRev" in
      let i := strings.Index dhr ":" in
      if negb (i =? -1) then
        repoPCB64 ← strings.slice_to dhr i;
        revPC ← strings.slice_from dhr (i + 1);
        match base64.DecodeString repoPCB64 with
        | inr err => Ret (DeltaSpec_zero, Some err)
        | inl repoPC =>
            r ← UnmarshalRepoRevSpec
                  (<[ "Rev" := revPC ]> {[ "RepoSpec" := repoPC ]});
            match r with
            | (_, Some err) => Ret (DeltaSpec_zero, Some err)
            | (head, None) => Ret (mkDeltaSpec base head, None)
            end
        end
      else
        r ← UnmarshalRepoRevSpec
              (<[ "Rev" := dhr ]> {[ "RepoSpec" := get routeVars "RepoSpec" ]});
        match r with
        | (_, Some err) => Ret (DeltaSpec_zero, Some err)
        | (head, None) => Ret (mkDeltaSpec base head, None)
        end
  end.

(** A [DefDelta] holds two possibly-nil pointers to a [Def]. *)
Record DefDelta (Def : Type) : Type := mkDefDelta {
  dd_Base : option Def;
  dd_Head : option Def
}.
Arguments mkDefDelta {Def} _ _.
Arguments dd_Base {Def} _.
Arguments dd_Head {Def} _.

Definition is_nil {A} (p : option A) : bool :=
  match p with None => true | Some _ => false end.

Definition Added {Def} (dd : DefDelta Def) : bool :=
  is_nil (dd_Base dd) && negb (is_nil (dd_Head dd)).

Definition Changed {Def} (dd : DefDelta Def) : bool :=
  negb (is_nil (dd_Base dd)) && negb (is_nil (dd_Head dd)).

Definition Deleted {Def} (dd : DefDelta Def) : bool :=
  negb (is_nil (dd_Base dd)) && is_nil (dd_Head dd).

(** ** Predicates on identifiers *)

(** [decode(encode x)]: the composition the round-trip laws speak of. *)
Definition RepoSpec_roundtrip (x : RepoSpec) : outcome (RepoSpec * option error) :=
  pc ← PathComponent x; ParseRepoSpec pc.

Definition RepoRevSpec_roundtrip (v : RepoRevSpec) : outcome (RepoRevSpec * option error) :=
  m ← RepoRevSpec_RouteVars v; UnmarshalRepoRevSpec m.

Definition DeltaSpec_roundtrip (d : DeltaSpec) : outcome (DeltaSpec * option error) :=
  m ← DeltaSpec_RouteVars d; UnmarshalDeltaSpec m.

(** The ["DeltaHeadRev"] route variable of an encoded delta. *)
Definition DeltaHeadRev (d : DeltaSpec) : outcome string :=
  m ← DeltaSpec_RouteVars d; mret (get m "DeltaHeadRev").

Definition is_intb (z : Z) : bool := (- 2 ^ 63 <=? z) && (z <? 2 ^ 63).

(** A valid repository identifier, as the round-trip law words it: a
    numeric-ID identifier ([RID > 0], no URI), or a URI identifier (no
    RID, a non-empty URI) whose URI does not start with ["R$"]. *)
Definition valid_RepoSpec (x : RepoSpec) : bool :=
  is_intb (RID x) &&
  (if 0 <? RID x then String.eqb (URI x) ""
   else (RID x =? 0) && negb (String.eqb (URI x) "")
        && negb (strings.HasPrefix (URI x) "R$")).

(** A valid revision identifier: a valid repository, and a commit ID
    only together with a revision. *)
Definition valid_RepoRevSpec (v : RepoRevSpec) : bool :=
  valid_RepoSpec (Repo v)
  && (String.eqb (CommitID v) "" || negb (String.eqb (Rev v) "")).

Definition valid_DeltaSpec (d : DeltaSpec) : bool :=
  valid_RepoRevSpec (Base d) && valid_RepoRevSpec (Head d).

(** The URIs on which the two ends of the RepoSpec codec treat the home
    instance alike: the URI does not start with ["sourcegraph/"] (which
    decoding expands), and is neither a prefix of ["sourcegraph.com/"]
    nor starts with it (where encoding tests the prefix). *)
Definition plain_URI (uri : string) : bool :=
  negb (strings.HasPrefix uri "sourcegraph/")
  && negb (strings.HasPrefix "sourcegraph.com/" uri)
  && negb (strings.HasPrefix uri "sourcegraph.com/").

Definition plain_RepoSpec (x : RepoSpec) : bool :=
  valid_RepoSpec x && ((0 <? RID x) || plain_URI (URI x)).

(** The revisions whose token splits back where it was joined: without a
    commit ID the revision contains no ["==="]; with one, no ["==="]
    starts inside the revision once the separator follows it. *)
Definition plain_Rev (v : RepoRevSpec) : bool :=
  if String.eqb (CommitID v) "" then strings.Index (Rev v) "===" =? -1
  else negb (String.eqb (Rev v) "")
       && (strings.Index (Rev v +:+ "==") "===" =? -1).

(** The revision token of an identifier that satisfies the invariant. *)
Definition rev_token (v : RepoRevSpec) : string :=
  if String.eqb (CommitID v) "" then Rev v
  else Rev v +:+ "===" +:+ CommitID v.

Definition plain_RepoRevSpec (v : RepoRevSpec) : bool :=
  plain_RepoSpec (Repo v) && plain_Rev v.

(** ** [deltas.go]: the diffstat of a delta's files *)

(** [diff.Stat] of package go-diff: three integer counters.  The width
    of the counters is a parameter [w] (their Go type is declared in
    go-diff); additions wrap around in two's complement. *)
Module diff.

Record Stat : Type := mkStat {
  Added : Z;
  Changed : Z;
  Deleted : Z
}.

Definition wrap (w : positive) (z : Z) : Z :=
  (z + 2 ^ (Z.pos w - 1)) mod 2 ^ Z.pos w - 2 ^ (Z.pos w - 1).

(** The three [+=] of the loop body. *)
Definition accumulate (w : positive) (ds st : Stat) : Stat :=
  mkStat (wrap w (Added ds + Added st))
         (wrap w (Changed ds + Changed st))
         (wrap w (Deleted ds + Deleted st)).

End diff.

Section DeltaFiles.

(** Width of the counters of [diff.Stat]. *)
Variable w : positive.
(** [*diff.FileDiff], and its method [Stat()] of go-diff, which may
    panic (on a nil pointer, for one). *)
Variable FileDiff : Type.
Variable FileDiff_Stat : FileDiff -> outcome diff.Stat.

Record DeltaFiles : Type := mkDeltaFiles {
  FileDiffs : list FileDiff
}.

(** The [range] loop of [DiffStat], [ds] being the sum so far. *)
Fixpoint DiffStat_loop (fds : list FileDiff) (ds : diff.Stat) : outcome diff.Stat :=
  match fds with
  | [] => Ret ds
  | fd :: rest =>
      st ← FileDiff_Stat fd;
      DiffStat_loop rest (diff.accumulate w ds st)
  end.

(** [(d *DeltaFiles).DiffStat()]; [None] is the nil receiver. *)
Definition DiffStat (d : option DeltaFiles) : outcome diff.Stat :=
  match d with
  | None => Panic "invalid memory address or nil pointer dereference"
  | Some d => DiffStat_loop (FileDiffs d) (diff.mkStat 0 0 0)
  end.

(** The stats of all file diffs, in order, up to the first panic. *)
Fixpoint all_stats (fds : list FileDiff) : outcome (list diff.Stat) :=
  match fds with
  | [] => Ret []
  | fd :: rest =>
      st ← FileDiff_Stat fd;
      sts ← all_stats rest;
      Ret (st :: sts)
  end.

End DeltaFiles.

Arguments mkDeltaFiles {FileDiff} _.
Arguments FileDiffs {FileDiff} _.
Arguments DiffStat_loop w {FileDiff} FileDiff_Stat fds ds.
Arguments DiffStat w {FileDiff} FileDiff_Stat d.
Arguments all_stats {FileDiff} FileDiff_Stat fds.

(** Sum of one counter over a list of stats, in unbounded integers. *)
Definition total (field : diff.Stat -> Z) (sts : list diff.Stat) : Z :=
  foldr (fun st acc => field st + acc) 0 sts.

(** ** [repositories.go]: badges and counters *)

(** [template.HTMLEscapeString] of package text/template: the double
    quote (byte 34), the apostrophe (byte 39), the ampersand, the two
    angle brackets and NUL are replaced, every other byte is kept. *)
Module template.

Definition htmlQuot : string := "&#34;".
Definition htmlApos : string := "&#39;".
Definition htmlAmp : string := "&amp;".
Definition htmlLt : string := "&lt;".
Definition htmlGt : string := "&gt;".
(** U+FFFD in UTF-8 *)
Definition htmlNull : string := String "239" (String "191" (String "189" EmptyString)).

Definition escape_byte (c : ascii) : string :=
  if Ascii.eqb c "000" then htmlNull
  else if Ascii.eqb c "034" then htmlQuot
  else if Ascii.eqb c "039" then htmlApos
  else if Ascii.eqb c "&" then htmlAmp
  else if Ascii.eqb c "<" then htmlLt
  else if Ascii.eqb c ">" then htmlGt
  else String c EmptyString.

Fixpoint HTMLEscapeString (s : string) : string :=
  match s with
  | EmptyString => EmptyString
  | String c s' => escape_byte c +:+ HTMLEscapeString s'
  end.

End template.

Record Badge : Type := mkBadge {
  Badge_Name : string;
  Badge_Description : string;
  Badge_ImageURL : string;
  Badge_UncountedImageURL : string;
  Badge_Markdown : string
}.

Record Counter : Type := mkCounter {
  Counter_Name : string;
  Counter_Description : string;
  Counter_ImageURL : string;
  Counter_UncountedImageURL : string;
  Counter_Markdown : string
}.

(** The double quote, as a string. *)
Definition dquote : string := String "034" EmptyString.

(** [fmt.Sprintf] of the format of [HTML], an [img] element whose [src]
    and [alt] attributes are two [%s] verbs in double quotes, with two
    string arguments. *)
Definition img_tag (src alt : string) : string :=
  "<img src=" +:+ dquote +:+ src +:+ dquote
  +:+ " alt=" +:+ dquote +:+ alt +:+ dquote +:+ ">".

(** [(b *Badge).HTML()]; [None] is the nil receiver. *)
Definition Badge_HTML (b : option Badge) : outcome string :=
  match b with
  | None => Panic "invalid memory address or nil pointer dereference"
  | Some b =>
      Ret (img_tag (template.HTMLEscapeString (Badge_ImageURL b))
                   (template.HTMLEscapeString (Badge_Name b)))
  end.

(** [(c *Counter).HTML()]; [None] is the nil receiver. *)
Definition Counter_HTML (c : option Counter) : outcome string :=
  match c with
  | None => Panic "invalid memory address or nil pointer dereference"
  | Some c =>
      Ret (img_tag (template.HTMLEscapeString (Counter_ImageURL c))
                   (template.HTMLEscapeString (Counter_Name c)))
  end.

(** ** Parts of the DeltaSpec codec, named for the statements below *)

(** The last step of both branches of [UnmarshalDeltaSpec]. *)
Definition head_result (base : RepoRevSpec) (r : RepoRevSpec * option error)
  : outcome (DeltaSpec * option error) :=
  match r with
  | (_, Some err) => Ret (DeltaSpec_zero, Some err)
  | (head, None) => Ret (mkDeltaSpec base head, None)
  end.

(** The head token of an encoded delta. *)
Definition head_token (d : DeltaSpec) (pcH tokH : string) : string :=
  if bool_decide (Repo (Base d) = Repo (Head d)) then tokH
  else base64.EncodeToString pcH +:+ ":" +:+ tokH.

(** * Properties *)

(** ** Strings *)

Lemma bind_Ret {A B} (a : A) (f : A -> outcome B) : (Ret a ≫= f) = f a.
Proof. reflexivity. Qed.

Section string_facts.

Lemma append_nil_r (s : string) : s +:+ "" = s.
Proof. induction s as [|c s IH]; simpl; [reflexivity | now rewrite IH]. Qed.

Lemma append_assoc (a b c : string) : (a +:+ b) +:+ c = a +:+ b +:+ c.
Proof. induction a as [|x a IH]; simpl; [reflexivity | now rewrite IH]. Qed.

Lemma length_append (a b : string) :
  String.length (a +:+ b) = (String.length a + String.length b)%nat.
Proof. induction a as [|x a IH]; simpl; [reflexivity | now rewrite IH]. Qed.

Lemma take_app (a b : string) : strings.take (String.length a) (a +:+ b) = a.
Proof. induction a as [|x a IH]; simpl; [now destruct b | now rewrite IH]. Qed.

Lemma drop_app (a b : string) : strings.drop (String.length a) (a +:+ b) = b.
Proof. induction a as [|x a IH]; simpl; [reflexivity | exact IH]. Qed.

Lemma take_all (a : string) : strings.take (String.length a) a = a.
Proof. rewrite <- (append_nil_r a) at 2. apply take_app. Qed.

Lemma prefix_app (p s : string) : String.prefix p (p +:+ s) = true.
Proof.
  induction p as [|x p IH]; simpl; [now destruct s|].
  destruct (ascii_dec x x); [exact IH | congruence].
Qed.

Lemma prefix_inv (p s : string) :
  String.prefix p s = true -> exists t, s = p +:+ t.
Proof.
  revert s. induction p as [|x p IH]; intros s H.
  - now exists s.
  - destruct s as [|y s]; simpl in H; [discriminate|].
    destruct (ascii_dec x y) as [->|]; [|discriminate].
    destruct (IH _ H) as [t ->]. now exists t.
Qed.

(** [s[n:]] of a string that starts with [n] bytes [a]. *)
Lemma slice_from_app (a b : string) :
  strings.slice_from (a +:+ b) (strings.len a) = Ret b.
Proof.
  unfold strings.slice_from, strings.slice, strings.len.
  rewrite length_append.
  replace ((0 <=? Z.of_nat (String.length a))
           && (Z.of_nat (String.length a) <=? Z.of_nat (String.length a + String.length b))
           && (Z.of_nat (String.length a + String.length b)
               <=? Z.of_nat (String.length a + String.length b))) with true
    by (symmetry; rewrite !andb_true_iff, !Z.leb_le; lia).
  rewrite Nat2Z.id, drop_app.
  replace (Z.to_nat (Z.of_nat (String.length a + String.length b) - Z.of_nat (String.length a)))
    with (String.length b) by lia.
  now rewrite take_all.
Qed.

(** [s[:n]] of a string that starts with [n] bytes [a]. *)
Lemma slice_to_app (a b : string) :
  strings.slice_to (a +:+ b) (strings.len a) = Ret a.
Proof.
  unfold strings.slice_to, strings.slice, strings.len.
  rewrite length_append.
  replace ((0 <=? 0) && (0 <=? Z.of_nat (String.length a))
           && (Z.of_nat (String.length a) <=? Z.of_nat (String.length a + String.length b)))
    with true by (symmetry; rewrite !andb_true_iff, !Z.leb_le; lia).
  rewrite Z.sub_0_r, Nat2Z.id. simpl. now rewrite take_app.
Qed.

Lemma count_app (c : ascii) (a b : string) :
  strings.count c (a +:+ b) = (strings.count c a + strings.count c b)%nat.
Proof. induction a as [|x a IH]; simpl; [reflexivity | rewrite IH; lia]. Qed.

Lemma index_nat_cons (x : ascii) (s substr : string) :
  strings.index_nat (String x s) substr =
  if String.prefix substr (String x s) then Some O
  else S <$> strings.index_nat s substr.
Proof. reflexivity. Qed.

(** A byte that does not occur is not found by [Index], and conversely. *)
Lemma index_nat_byte_none (c : ascii) (s : string) :
  strings.index_nat s (String c "") = None <-> strings.count c s = O.
Proof.
  induction s as [|x s IH]; simpl; [tauto|].
  destruct (ascii_dec c x) as [->|Hne].
  - rewrite Ascii.eqb_refl. destruct s; split; intro; simpl in *; discriminate.
  - destruct (Ascii.eqb_spec x c) as [->|_]; [congruence|]. simpl.
    destruct (strings.index_nat s (String c "")) eqn:E; simpl.
    + split; [discriminate|]. intro H. apply IH in H. discriminate.
    + split; [|reflexivity]. intros _. now apply IH.
Qed.

(** The first occurrence of a byte sits right after a prefix without it. *)
Lemma index_nat_byte_app (c : ascii) (a b : string) :
  strings.count c a = O ->
  strings.index_nat (a +:+ String c b) (String c "") = Some (String.length a).
Proof.
  induction a as [|x a IH]; simpl; intro H.
  - destruct (ascii_dec c c); [|congruence]. now destruct b.
  - destruct (Ascii.eqb_spec x c) as [->|Hne]; [discriminate|].
    destruct (ascii_dec c x) as [->|_]; [congruence|].
    rewrite IH by exact H. reflexivity.
Qed.

(** The first ["==="] of [rev ++ "===" ++ cid] is the separator itself
    when no earlier one starts inside [rev]. *)
Lemma index_nat_sep_app (rev cid : string) :
  strings.index_nat (rev +:+ "==") "===" = None ->
  strings.index_nat (rev +:+ "===" +:+ cid) "===" = Some (String.length rev).
Proof.
  induction rev as [|x rev IH]; intro H.
  - now destruct cid.
  - change (String x rev +:+ "==") with (String x (rev +:+ "==")) in H.
    change (String x rev +:+ "===" +:+ cid)
      with (String x (rev +:+ "===" +:+ cid)).
    rewrite index_nat_cons in H |- *.
    destruct (String.prefix "===" (String x (rev +:+ "=="))) eqn:P; [discriminate|].
    destruct (strings.index_nat (rev +:+ "==") "===") eqn:E; [discriminate|].
    rewrite IH by reflexivity.
    assert (Q : String.prefix "===" (String x (rev +:+ "===" +:+ cid)) = false).
    { destruct rev as [|y [|z [|w rev]]], cid; exact P. }
    now rewrite Q.
Qed.

End string_facts.

(** ** Decimal formatting and parsing *)

Section strconv_facts.

Import strconv.

Lemma digit_char_ok (d : Z) :
  0 <= d <= 9 -> is_digit (digit_char d) = true /\ digit_val (digit_char d) = d.
Proof.
  intro H.
  assert (E : d = 0 \/ d = 1 \/ d = 2 \/ d = 3 \/ d = 4 \/ d = 5 \/ d = 6
              \/ d = 7 \/ d = 8 \/ d = 9) by lia.
  repeat (destruct E as [-> | E]; [split; reflexivity|]).
  subst d. split; reflexivity.
Qed.

Lemma is_digit_val (c : ascii) : is_digit c = true -> 0 <= digit_val c <= 9.
Proof.
  unfold is_digit, digit_val. rewrite andb_true_iff, !Z.leb_le. lia.
Qed.

Lemma is_digit_not_sign (c : ascii) :
  is_digit c = true -> Ascii.eqb c "-" = false /\ Ascii.eqb c "+" = false.
Proof.
  intro H. split.
  - destruct (Ascii.eqb_spec c "-") as [->|]; [discriminate H | reflexivity].
  - destruct (Ascii.eqb_spec c "+") as [->|]; [discriminate H | reflexivity].
Qed.

Lemma decimal_value_ge (s : string) (acc : Z) :
  all_digits s = true -> 0 <= acc -> acc <= decimal_value s acc.
Proof.
  revert acc. induction s as [|c s IH]; intros acc D Hacc; simpl in *; [lia|].
  apply andb_true_iff in D as [Dc Ds].
  pose proof (is_digit_val c Dc).
  specialize (IH (acc * 10 + digit_val c) Ds). lia.
Qed.

(** On digit strings the [uint64] loop computes the decimal value, or
    reports a range error as soon as the value leaves [uint64]. *)
Lemma parseUint_loop_digits (s : string) (n : Z) :
  all_digits s = true -> 0 <= n <= maxUint64 ->
  parseUint_loop s n =
    if decimal_value s n <=? maxUint64 then (decimal_value s n, None)
    else (maxUint64, Some ErrRange).
Proof.
  revert n. induction s as [|c s IH]; intros n D Hn; simpl in D |- *.
  - destruct (Z.leb_spec n maxUint64); [reflexivity | lia].
  - apply andb_true_iff in D as [Dc Ds]. rewrite Dc.
    pose proof (is_digit_val c Dc) as Hd.
    unfold maxUint64 in *.
    change (2 ^ 64 - 1) with 18446744073709551615 in *.
    change ((18446744073709551615 / 10) + 1) with 1844674407370955162.
    change (2 ^ 64) with 18446744073709551616.
    destruct (Z.leb_spec 1844674407370955162 n) as [Hc|Hc].
    + pose proof (decimal_value_ge s (n * 10 + digit_val c) Ds).
      destruct (Z.leb_spec (decimal_value s (n * 10 + digit_val c))
                  18446744073709551615); [lia | reflexivity].
    + destruct (Z.ltb_spec (n * 10 + digit_val c) 18446744073709551616) as [Hs|Hs].
      * rewrite Z.mod_small by lia.
        destruct (Z.ltb_spec (n * 10 + digit_val c) (n * 10)); [lia|].
        destruct (Z.ltb_spec 18446744073709551615 (n * 10 + digit_val c)); [lia|].
        simpl. apply IH; [exact Ds | lia].
      * pose proof (decimal_value_ge s (n * 10 + digit_val c) Ds).
        assert (M : (n * 10 + digit_val c) mod 18446744073709551616
                    = n * 10 + digit_val c - 18446744073709551616).
        { symmetry. apply Z.mod_unique with (q := 1); lia. }
        rewrite M.
        destruct (Z.ltb_spec (n * 10 + digit_val c - 18446744073709551616) (n * 10));
          [|lia].
        simpl.
        destruct (Z.leb_spec (decimal_value s (n * 10 + digit_val c))
                    18446744073709551615); [lia | reflexivity].
Qed.

(** With a byte that is not a digit the loop ends in an error. *)
Lemma parseUint_loop_bad (s : string) (n : Z) :
  all_digits s = false ->
  parseUint_loop s n = (0, Some ErrSyntax)
  \/ parseUint_loop s n = (maxUint64, Some ErrRange).
Proof.
  revert n. induction s as [|c s IH]; intros n D; simpl in D |- *; [discriminate|].
  destruct (is_digit c); [|now left]. simpl in D.
  destruct (_ <=? n); [now right|].
  destruct (_ || _); [now right|]. now apply IH.
Qed.

Lemma ParseUint_digits (s : string) (u : Z) :
  digits_value s = Some u ->
  0 <= u /\
  ParseUint s = if u <=? maxUint64 then (u, None) else (maxUint64, Some ErrRange).
Proof.
  destruct s as [|c s]; [discriminate|].
  unfold digits_value, ParseUint.
  destruct (all_digits (String c s)) eqn:D; [|discriminate].
  intros [= <-]. split.
  - apply (decimal_value_ge (String c s) 0 D). lia.
  - assert (R : 0 <= 0 <= maxUint64) by (unfold maxUint64; lia).
    exact (parseUint_loop_digits (String c s) 0 D R).
Qed.

Lemma ParseUint_bad (s : string) :
  digits_value s = None ->
  ParseUint s = (0, Some ErrSyntax) \/ ParseUint s = (maxUint64, Some ErrRange).
Proof.
  destruct s as [|c s]; [now left|].
  unfold digits_value, ParseUint.
  destruct (all_digits (String c s)) eqn:D; [discriminate|].
  intros _. exact (parseUint_loop_bad (String c s) 0 D).
Qed.

End strconv_facts.

Section atoi_facts.

Import strconv.

Lemma ParseInt_unfold (c : ascii) (s' : string) :
  ParseInt (String c s') =
  signed_result (Ascii.eqb c "-")
    (ParseUint (if Ascii.eqb c "+" || Ascii.eqb c "-" then s' else String c s')).
Proof. reflexivity. Qed.

Lemma signed_result_digits (neg : bool) (body : string) (u : Z) :
  digits_value body = Some u ->
  let v := if neg then - u else u in
  if (- 2 ^ 63 <=? v) && (v <? 2 ^ 63)
  then signed_result neg (ParseUint body) = (v, None)
  else exists w, signed_result neg (ParseUint body) = (w, Some ErrRange).
Proof.
  intros Hu v. destruct (ParseUint_digits body u Hu) as [Hpos ->].
  unfold signed_result, IntSize, maxUint64, v.
  change (2 ^ (64 - 1)) with 9223372036854775808.
  change (2 ^ 63) with 9223372036854775808.
  change (2 ^ 64 - 1) with 18446744073709551615.
  destruct neg; simpl negb; simpl andb;
    destruct (Z.leb_spec u 18446744073709551615);
    repeat match goal with
      | |- context [Z.leb ?a ?b] => destruct (Z.leb_spec a b)
      | |- context [Z.ltb ?a ?b] => destruct (Z.ltb_spec a b)
      end; simpl; try lia; try reflexivity; eauto.
Qed.

Lemma signed_result_bad (neg : bool) (body : string) :
  digits_value body = None ->
  exists w e, signed_result neg (ParseUint body) = (w, Some e).
Proof.
  intro H. destruct (ParseUint_bad body H) as [-> | ->].
  - now exists 0, ErrSyntax.
  - destruct neg; vm_compute; eauto.
Qed.

Lemma signed_value_unfold (c : ascii) (s' : string) :
  signed_value (String c s') =
  (fun v : Z => if Ascii.eqb c "-" then - v else v)
    <$> digits_value (if Ascii.eqb c "+" || Ascii.eqb c "-" then s' else String c s').
Proof.
  unfold signed_value.
  destruct (Ascii.eqb_spec c "-") as [->|Hm]; [simpl; now destruct (digits_value s')|].
  rewrite orb_false_r.
  destruct (Ascii.eqb c "+"); now destruct (digits_value _).
Qed.

(** [ParseInt] accepts exactly the decimal literals of an [int]. *)
Lemma ParseInt_decimal (s : string) :
  match decimal_int s with
  | Some z => ParseInt s = (z, None)
  | None => exists w e, ParseInt s = (w, Some e)
  end.
Proof.
  destruct s as [|c s'].
  - now exists 0, ErrSyntax.
  - unfold decimal_int. rewrite signed_value_unfold, ParseInt_unfold.
    set (body := if Ascii.eqb c "+" || Ascii.eqb c "-" then s' else String c s').
    destruct (digits_value body) as [u|] eqn:Hu; simpl.
    + pose proof (signed_result_digits (Ascii.eqb c "-") body u Hu) as R.
      simpl in R. destruct (_ && _); [exact R|].
      destruct R as [w R]. eauto.
    + now apply signed_result_bad.
Qed.

Lemma Atoi_decimal (s : string) :
  match decimal_int s with
  | Some z => Atoi s = (z, None)
  | None => exists w e, Atoi s = (w, Some (NumError "Atoi" s e))
  end.
Proof.
  unfold Atoi. pose proof (ParseInt_decimal s) as H.
  destruct (decimal_int s) as [z|].
  - now rewrite H.
  - destruct H as (w & e & ->). eauto.
Qed.

(** *** Formatting *)

Lemma formatBits_cons_nonempty (f : nat) (u : Z) (c : ascii) (acc : string) :
  formatBits f u (String c acc) <> "".
Proof.
  revert u c acc. induction f as [|f IH]; intros u c acc; simpl; [discriminate|].
  destruct (10 <=? u); [apply IH | discriminate].
Qed.

Lemma formatBits_value (f : nat) (u : Z) (acc : string) :
  0 <= u < 2 ^ Z.of_nat f ->
  all_digits (formatBits f u acc) = all_digits acc
  /\ decimal_value (formatBits f u acc) 0 = decimal_value acc u.
Proof.
  revert u acc. induction f as [|f IH]; intros u acc Hu.
  - simpl in *. assert (u = 0) by lia. subst u. split; reflexivity.
  - rewrite Nat2Z.inj_succ, Z.pow_succ_r in Hu by lia.
    cbn [formatBits]. destruct (Z.leb_spec 10 u) as [Hge|Hlt].
    + pose proof (Z.div_mod u 10 ltac:(lia)) as Hdm.
      pose proof (Z.mod_pos_bound u 10 ltac:(lia)) as Hm.
      destruct (digit_char_ok (u mod 10) ltac:(lia)) as [Dd Dv].
      destruct (IH (u / 10) (String (digit_char (u mod 10)) acc) ltac:(lia))
        as [A V].
      rewrite A, V. simpl. rewrite Dd, Dv. split; [reflexivity|].
      f_equal. lia.
    + destruct (digit_char_ok u ltac:(lia)) as [Dd Dv].
      simpl. rewrite Dd, Dv. split; reflexivity.
Qed.

Lemma FormatUint_value (u : Z) :
  0 <= u -> digits_value (FormatUint u) = Some u.
Proof.
  intro Hu. unfold FormatUint.
  assert (B : 0 <= u < 2 ^ Z.of_nat (S (Z.to_nat (Z.log2 u)))).
  { rewrite Nat2Z.inj_succ, Z2Nat.id by apply Z.log2_nonneg.
    destruct (Z.eq_dec u 0) as [->|]; [simpl; lia|].
    pose proof (Z.log2_spec u ltac:(lia)). lia. }
  destruct (formatBits_value _ u "" B) as [A V].
  unfold digits_value.
  destruct (formatBits _ u "") eqn:E.
  - exfalso. revert E. cbn [formatBits].
    destruct (10 <=? u); [apply formatBits_cons_nonempty | discriminate].
  - rewrite A, V. reflexivity.
Qed.

Lemma FormatUint_head (u : Z) :
  0 <= u -> exists c rest, FormatUint u = String c rest /\ is_digit c = true.
Proof.
  intro Hu. pose proof (FormatUint_value u Hu) as H.
  unfold digits_value in H. destruct (FormatUint u) as [|c rest]; [discriminate|].
  exists c, rest. split; [reflexivity|].
  destruct (all_digits (String c rest)) eqn:D; [|discriminate].
  simpl in D. now apply andb_true_iff in D as [D _].
Qed.

Lemma decimal_int_Itoa (i : Z) : is_int i -> decimal_int (Itoa i) = Some i.
Proof.
  unfold is_int, Itoa, decimal_int. intro Hi.
  assert (R : (- 2 ^ 63 <=? i) && (i <? 2 ^ 63) = true)
    by (rewrite andb_true_iff, Z.leb_le, Z.ltb_lt; lia).
  destruct (Z.ltb_spec i 0) as [Hneg|Hpos].
  - cbn [signed_value]. rewrite Ascii.eqb_refl.
    rewrite FormatUint_value by lia. simpl.
    rewrite Z.opp_involutive. now rewrite R.
  - destruct (FormatUint_head i Hpos) as (c & rest & E & D).
    pose proof (FormatUint_value i Hpos) as V. rewrite E in V |- *.
    cbn [signed_value]. destruct (is_digit_not_sign c D) as [-> ->].
    rewrite V. now rewrite R.
Qed.

(** [Atoi] undoes [Itoa] on every [int]. *)
Lemma Atoi_Itoa (i : Z) : is_int i -> Atoi (Itoa i) = (i, None).
Proof.
  intro Hi. pose proof (Atoi_decimal (Itoa i)) as H.
  now rewrite decimal_int_Itoa in H.
Qed.

End atoi_facts.

(** ** Base64 *)

Section base64_facts.

Import base64.
Local Open Scope N_scope.

Local Ltac euclid := zify; Z.to_euclidean_division_equations; lia.

Lemma string_ind3 (P : string -> Prop) :
  P "" ->
  (forall a, P (String a "")) ->
  (forall a b, P (String a (String b ""))) ->
  (forall a b c r, P r -> P (String a (String b (String c r)))) ->
  forall s, P s.
Proof.
  intros H0 H1 H2 H3. fix IH 1.
  intros [|a [|b [|c r]]]; [exact H0 | apply H1 | apply H2 | apply H3, IH].
Qed.

(** Bits that do not overlap are added by [lor]. *)
Lemma lor_mul_pow2_add (q c k : N) : c < 2 ^ k -> N.lor (q * 2 ^ k) c = q * 2 ^ k + c.
Proof.
  intro H. rewrite <- N.shiftl_mul_pow2.
  rewrite <- N.lxor_lor, <- N.add_nocarry_lxor; try reflexivity.
  all: apply N.bits_inj; intro n; rewrite N.land_spec, N.bits_0;
    destruct (N.lt_ge_cases n k) as [L|G];
    [ now rewrite N.shiftl_spec_low
    | rewrite <- (N.mod_small c (2 ^ k)) by exact H;
      rewrite N.mod_pow2_bits_high by exact G; apply andb_false_r ].
Qed.

Lemma quantum_add (a b c : N) :
  b < 256 -> c < 256 -> quantum a b c = a * 65536 + b * 256 + c.
Proof.
  intros Hb Hc. unfold quantum. rewrite !N.shiftl_mul_pow2.
  rewrite (lor_mul_pow2_add a (b * 2 ^ 8) 16) by (change (2 ^ 16) with 65536;
    change (2 ^ 8) with 256; lia).
  replace (a * 2 ^ 16 + b * 2 ^ 8) with ((a * 256 + b) * 2 ^ 8)
    by (change (2 ^ 16) with 65536; change (2 ^ 8) with 256; lia).
  rewrite lor_mul_pow2_add by (change (2 ^ 8) with 256; lia).
  change (2 ^ 8) with 256. lia.
Qed.

Lemma dquantum_add (x y z w : N) :
  y < 64 -> z < 64 -> w < 64 ->
  dquantum x y z w = x * 262144 + y * 4096 + z * 64 + w.
Proof.
  intros Hy Hz Hw. unfold dquantum. rewrite !N.shiftl_mul_pow2.
  change (2 ^ 18) with 262144. change (2 ^ 12) with 4096. change (2 ^ 6) with 64.
  change 262144 with (2 ^ 18) at 1.
  rewrite (lor_mul_pow2_add x (y * 4096) 18) by (change (2 ^ 18) with 262144; lia).
  change (2 ^ 18) with 262144.
  replace (x * 262144 + y * 4096) with ((x * 64 + y) * 2 ^ 12)
    by (change (2 ^ 12) with 4096; lia).
  rewrite (lor_mul_pow2_add _ (z * 64) 12) by (change (2 ^ 12) with 4096; lia).
  change (2 ^ 12) with 4096.
  replace ((x * 64 + y) * 4096 + z * 64) with (((x * 64 + y) * 64 + z) * 2 ^ 6)
    by (change (2 ^ 6) with 64; lia).
  rewrite lor_mul_pow2_add by (change (2 ^ 6) with 64; lia).
  change (2 ^ 6) with 64. lia.
Qed.

Lemma six_bits (val k : N) : N.land (N.shiftr val k) 63 = (val / 2 ^ k) mod 64.
Proof.
  change 63 with (N.ones 6). now rewrite N.land_ones, N.shiftr_div_pow2.
Qed.

(** Splitting three bytes into four sextets and joining them again. *)
Lemma quantum_sextets (a b c : N) :
  a < 256 -> b < 256 -> c < 256 ->
  let val := quantum a b c in
  let x := N.land (N.shiftr val 18) 63 in
  let y := N.land (N.shiftr val 12) 63 in
  let z := N.land (N.shiftr val 6) 63 in
  let w := N.land (N.shiftr val 0) 63 in
  (x < 64 /\ y < 64 /\ z < 64 /\ w < 64)
  /\ (byte (N.shiftr (dquantum x y z w) 16) = ascii_of_N a
      /\ byte (N.shiftr (dquantum x y z w) 8) = ascii_of_N b
      /\ byte (dquantum x y z w) = ascii_of_N c)
  /\ (c = 0 -> w = 0) /\ (b = 0 -> c = 0 -> z = 0).
Proof.
  intros Ha Hb Hc val x y z w.
  assert (V : val = a * 65536 + b * 256 + c) by (now apply quantum_add).
  assert (X : x = (val / 262144) mod 64) by (apply six_bits).
  assert (Y : y = (val / 4096) mod 64) by (apply six_bits).
  assert (Z : z = (val / 64) mod 64) by (apply six_bits).
  assert (W : w = val mod 64).
  { unfold w. rewrite six_bits. change (2 ^ 0) with 1. now rewrite N.div_1_r. }
  clearbody val x y z w.
  assert (B : x < 64 /\ y < 64 /\ z < 64 /\ w < 64) by (subst; euclid).
  split; [exact B|]. destruct B as (Bx & By & Bz & Bw).
  rewrite dquantum_add by assumption.
  unfold byte. rewrite !N.shiftr_div_pow2.
  change (2 ^ 16) with 65536. change (2 ^ 8) with 256.
  assert (D : x * 262144 + y * 4096 + z * 64 + w = val) by (subst; euclid).
  rewrite D. repeat split.
  - f_equal. subst val. euclid.
  - f_equal. subst val. euclid.
  - f_equal. subst val. euclid.
  - intros ->. subst. euclid.
  - intros -> ->. subst. euclid.
Qed.

Lemma encode_sextet (n : N) :
  n < 64 ->
  decodeMap (encode n) = Some n
  /\ is_newline (encode n) = false
  /\ Ascii.eqb (encode n) ":" = false.
Proof.
  intro H. rewrite <- (N2Nat.id n).
  assert (K : (N.to_nat n < 64)%nat) by lia.
  generalize dependent (N.to_nat n). clear H. intros k Hk.
  do 64 (destruct k as [|k]; [repeat split; reflexivity|]). lia.
Qed.

Lemma decodeMap_pad : decodeMap padChar = None.
Proof. reflexivity. Qed.

Lemma decode_quanta_Encode (s : string) : decode_quanta (Encode s) = inl s.
Proof.
  induction s as [| a | a b | a b c r IH] using string_ind3.
  - reflexivity.
  - pose proof (N_ascii_bounded a) as Ha.
    destruct (quantum_sextets (N_of_ascii a) 0 0 Ha eq_refl eq_refl)
      as ((Bx & By & _ & _) & (E1 & _ & _) & W0 & Z0).
    cbv zeta in *. rewrite W0, Z0 in E1 by reflexivity.
    rewrite ascii_N_embedding in E1.
    destruct (encode_sextet _ Bx) as (Dx & _).
    destruct (encode_sextet _ By) as (Dy & _).
    cbn [Encode decode_quanta]. unfold sextet.
    rewrite Dx, Dy, decodeMap_pad, Ascii.eqb_refl. cbn [andb String.eqb].
    now rewrite E1.
  - pose proof (N_ascii_bounded a) as Ha. pose proof (N_ascii_bounded b) as Hb.
    destruct (quantum_sextets (N_of_ascii a) (N_of_ascii b) 0 Ha Hb eq_refl)
      as ((Bx & By & Bz & _) & (E1 & E2 & _) & W0 & _).
    cbv zeta in *. rewrite W0 in E1, E2 by reflexivity.
    rewrite ascii_N_embedding in E1, E2.
    destruct (encode_sextet _ Bx) as (Dx & _).
    destruct (encode_sextet _ By) as (Dy & _).
    destruct (encode_sextet _ Bz) as (Dz & _).
    cbn [Encode decode_quanta]. unfold sextet.
    rewrite Dx, Dy, Dz, decodeMap_pad, Ascii.eqb_refl. cbn [andb String.eqb].
    now rewrite E1, E2.
  - pose proof (N_ascii_bounded a) as Ha. pose proof (N_ascii_bounded b) as Hb.
    pose proof (N_ascii_bounded c) as Hc.
    destruct (quantum_sextets (N_of_ascii a) (N_of_ascii b) (N_of_ascii c) Ha Hb Hc)
      as ((Bx & By & Bz & Bw) & (E1 & E2 & E3) & _).
    cbv zeta in *. rewrite ascii_N_embedding in E1, E2, E3.
    destruct (encode_sextet _ Bx) as (Dx & _).
    destruct (encode_sextet _ By) as (Dy & _).
    destruct (encode_sextet _ Bz) as (Dz & _).
    destruct (encode_sextet _ Bw) as (Dw & _).
    cbn [Encode decode_quanta]. unfold sextet.
    rewrite Dx, Dy, Dz, Dw, IH. now rewrite E1, E2, E3.
Qed.

(** Every byte of an encoding is an alphabet byte or the padding. *)
Lemma Encode_bytes (s : string) :
  strip_newlines (Encode s) = Encode s /\ strings.count ":" (Encode s) = O.
Proof.
  induction s as [| a | a b | a b c r [IHn IHc]] using string_ind3.
  - split; reflexivity.
  - pose proof (N_ascii_bounded a) as Ha.
    destruct (quantum_sextets (N_of_ascii a) 0 0 Ha eq_refl eq_refl)
      as ((Bx & By & _ & _) & _).
    cbv zeta in *.
    destruct (encode_sextet _ Bx) as (_ & Nx & Cx).
    destruct (encode_sextet _ By) as (_ & Ny & Cy).
    cbn [Encode strip_newlines strings.count]. unfold sextet.
    rewrite Nx, Ny, Cx, Cy. split; reflexivity.
  - pose proof (N_ascii_bounded a) as Ha. pose proof (N_ascii_bounded b) as Hb.
    destruct (quantum_sextets (N_of_ascii a) (N_of_ascii b) 0 Ha Hb eq_refl)
      as ((Bx & By & Bz & _) & _).
    cbv zeta in *.
    destruct (encode_sextet _ Bx) as (_ & Nx & Cx).
    destruct (encode_sextet _ By) as (_ & Ny & Cy).
    destruct (encode_sextet _ Bz) as (_ & Nz & Cz).
    cbn [Encode strip_newlines strings.count]. unfold sextet.
    rewrite Nx, Ny, Nz, Cx, Cy, Cz. split; reflexivity.
  - pose proof (N_ascii_bounded a) as Ha. pose proof (N_ascii_bounded b) as Hb.
    pose proof (N_ascii_bounded c) as Hc.
    destruct (quantum_sextets (N_of_ascii a) (N_of_ascii b) (N_of_ascii c) Ha Hb Hc)
      as ((Bx & By & Bz & Bw) & _).
    cbv zeta in *.
    destruct (encode_sextet _ Bx) as (_ & Nx & Cx).
    destruct (encode_sextet _ By) as (_ & Ny & Cy).
    destruct (encode_sextet _ Bz) as (_ & Nz & Cz).
    destruct (encode_sextet _ Bw) as (_ & Nw & Cw).
    cbn [Encode strip_newlines strings.count]. unfold sextet.
    rewrite Nx, Ny, Nz, Nw, Cx, Cy, Cz, Cw, IHn, IHc. split; reflexivity.
Qed.

(** Decoding undoes encoding, on every byte string. *)
Lemma DecodeString_EncodeToString (s : string) :
  DecodeString (EncodeToString s) = inl s.
Proof.
  unfold DecodeString, EncodeToString.
  destruct (Encode_bytes s) as [-> _]. apply decode_quanta_Encode.
Qed.

Lemma EncodeToString_no_colon (s : string) :
  strings.count ":" (EncodeToString s) = O.
Proof. apply Encode_bytes. Qed.

End base64_facts.

(** ** The RepoSpec codec *)

Section repospec_facts.

Lemma eqb_empty (s : string) : String.eqb s "" = true <-> s = "".
Proof. apply String.eqb_eq. Qed.

Lemma HasPrefix_app (p t : string) : strings.HasPrefix (p +:+ t) p = true.
Proof. apply prefix_app. Qed.

(** [ParseRepoSpec] never panics: its one slice is guarded by the
    prefix test. *)
Lemma ParseRepoSpec_returns (pc : string) : exists r, ParseRepoSpec pc = Ret r.
Proof.
  unfold ParseRepoSpec.
  destruct (String.eqb pc ""); [eauto|].
  destruct (strings.HasPrefix pc "R$") eqn:P; [|eauto].
  apply prefix_inv in P as [t ->].
  change 2 with (strings.len "R$"). rewrite slice_from_app. simpl.
  destruct (strconv.Atoi t). eauto.
Qed.

Lemma ParseRepoSpec_numeric (rest : string) :
  ParseRepoSpec ("R$" +:+ rest) =
  let '(rid, err) := strconv.Atoi rest in Ret (mkRepoSpec "" rid, err).
Proof.
  unfold ParseRepoSpec. rewrite HasPrefix_app.
  change (String.eqb ("R$" +:+ rest) "") with false. cbv iota.
  change 2 with (strings.len "R$"). now rewrite slice_from_app.
Qed.

Lemma ParseRepoSpec_uri (uri : string) :
  uri <> "" ->
  strings.HasPrefix uri "R$" = false ->
  strings.HasPrefix uri "sourcegraph/" = false ->
  ParseRepoSpec uri = Ret (mkRepoSpec uri 0, None).
Proof.
  intros Hne HR HS. unfold ParseRepoSpec. rewrite HR, HS.
  destruct (String.eqb_spec uri ""); [contradiction | reflexivity].
Qed.

Lemma plain_RepoSpec_roundtrip (x : RepoSpec) :
  plain_RepoSpec x = true -> RepoSpec_roundtrip x = Ret (x, None).
Proof.
  destruct x as [uri rid]. unfold plain_RepoSpec, valid_RepoSpec, is_intb,
    RepoSpec_roundtrip, PathComponent. cbn [URI RID].
  rewrite !andb_true_iff, Z.leb_le, Z.ltb_lt.
  destruct (Z.ltb_spec 0 rid) as [Hpos|Hnp].
  - intros [[Hr Hu] _]. apply eqb_empty in Hu as ->.
    rewrite bind_Ret, ParseRepoSpec_numeric, Atoi_Itoa; [reflexivity|].
    unfold strconv.is_int. lia.
  - rewrite orb_false_l. unfold plain_URI.
    rewrite !andb_true_iff, !negb_true_iff, Z.eqb_eq.
    intros [[_ [[-> Hne] HR]] [[HS HP] _]].
    rewrite Hne, HP. cbn [negb].
    rewrite bind_Ret. apply ParseRepoSpec_uri; [|exact HR|exact HS].
    intros ->. discriminate Hne.
Qed.

End repospec_facts.

(** ** The RepoRevSpec codec *)

Section reporevspec_facts.

Lemma get_insert_eq (m : gmap string string) (k v : string) :
  get (<[ k := v ]> m) k = v.
Proof. unfold get. now rewrite lookup_insert_eq. Qed.

Lemma get_insert_ne (m : gmap string string) (k k' v : string) :
  k <> k' -> get (<[ k := v ]> m) k' = get m k'.
Proof. intro H. unfold get. now rewrite lookup_insert_ne. Qed.

Lemma get_singleton_eq (k v : string) :
  get ({[ k := v ]} : gmap string string) k = v.
Proof. unfold get. now rewrite lookup_singleton_eq. Qed.

Lemma len_append (a b : string) :
  strings.len (a +:+ b) = strings.len a + strings.len b.
Proof. unfold strings.len. rewrite length_append. lia. Qed.

Lemma RevPathComponent_valid (v : RepoRevSpec) :
  String.eqb (CommitID v) "" || negb (String.eqb (Rev v) "") = true ->
  RevPathComponent v = Ret (rev_token v).
Proof.
  unfold RevPathComponent, rev_token, repoRevSpecCommitSep.
  destruct (String.eqb (CommitID v) ""), (String.eqb (Rev v) ""); simpl;
    intro; (discriminate || reflexivity).
Qed.

Lemma plain_Rev_valid (v : RepoRevSpec) :
  plain_Rev v = true ->
  String.eqb (CommitID v) "" || negb (String.eqb (Rev v) "") = true.
Proof.
  unfold plain_Rev. destruct (String.eqb (CommitID v) ""); [reflexivity|].
  rewrite andb_true_iff. now intros [-> _].
Qed.

(** Decoding a repository token and the revision token of a
    [plain_Rev] identifier gives that repository and that revision. *)
Lemma UnmarshalRepoRevSpec_token (m : gmap string string) (v : RepoRevSpec) :
  ParseRepoSpec (get m "RepoSpec") = Ret (Repo v, None) ->
  get m "Rev" = rev_token v ->
  plain_Rev v = true ->
  UnmarshalRepoRevSpec m = Ret (v, None).
Proof.
  destruct v as [repo rev cid]. unfold rev_token, plain_Rev. cbn [Repo Rev CommitID].
  intros HP HR HV.
  unfold UnmarshalRepoRevSpec, UnmarshalRepoSpec, repoRevSpecCommitSep.
  rewrite HP, bind_Ret, HR.
  destruct (String.eqb_spec cid "") as [->|Hc].
  - rewrite HV, bind_Ret. now destruct rev.
  - apply andb_true_iff in HV as [Hrev HI].
    apply negb_true_iff in Hrev. apply Z.eqb_eq in HI.
    assert (N : strings.index_nat (rev +:+ "==") "===" = None).
    { unfold strings.Index in HI.
      destruct (strings.index_nat (rev +:+ "==") "==="); [lia | reflexivity]. }
    unfold strings.Index.
    rewrite (index_nat_sep_app rev cid N).
    replace (Z.of_nat (String.length rev) =? -1) with false
      by (symmetry; apply Z.eqb_neq; lia).
    change (Z.of_nat (String.length rev)) with (strings.len rev).
    rewrite slice_to_app, bind_Ret.
    rewrite <- len_append, <- append_assoc, slice_from_app, bind_Ret.
    rewrite bind_Ret, Hrev. reflexivity.
Qed.

(** What encoding produces for a plain identifier, and that decoding
    any map carrying the two tokens gives the identifier back. *)
Lemma plain_encoding (v : RepoRevSpec) :
  plain_RepoRevSpec v = true ->
  exists pc,
    PathComponent (Repo v) = Ret pc
    /\ RevPathComponent v = Ret (rev_token v)
    /\ forall m : gmap string string,
         get m "RepoSpec" = pc -> get m "Rev" = rev_token v ->
         UnmarshalRepoRevSpec m = Ret (v, None).
Proof.
  unfold plain_RepoRevSpec. rewrite andb_true_iff. intros [HR HV].
  pose proof (plain_RepoSpec_roundtrip _ HR) as RT. unfold RepoSpec_roundtrip in RT.
  destruct (PathComponent (Repo v)) as [pc|msg]; [|discriminate RT].
  rewrite bind_Ret in RT. exists pc. split; [reflexivity|]. split.
  - apply RevPathComponent_valid, plain_Rev_valid, HV.
  - intros m Hpc Hrev. apply UnmarshalRepoRevSpec_token; [|exact Hrev|exact HV].
    now rewrite Hpc.
Qed.

Lemma plain_RepoRevSpec_roundtrip (v : RepoRevSpec) :
  plain_RepoRevSpec v = true -> RepoRevSpec_roundtrip v = Ret (v, None).
Proof.
  intro H. destruct (plain_encoding v H) as (pc & Hpc & Htok & Hdec).
  unfold RepoRevSpec_roundtrip, RepoRevSpec_RouteVars, RepoSpec_RouteVars.
  rewrite Hpc, Htok. rewrite !bind_Ret. apply Hdec.
  - rewrite get_insert_ne by discriminate. apply get_singleton_eq.
  - apply get_insert_eq.
Qed.

End reporevspec_facts.

(** ** The DeltaSpec codec *)

Section deltaspec_facts.

Lemma Index_byte_absent (c : ascii) (s : string) :
  strings.count c s = O -> strings.Index s (String c "") = -1.
Proof.
  intro H. unfold strings.Index.
  now rewrite (proj2 (index_nat_byte_none c s) H).
Qed.

Lemma Index_byte_app (c : ascii) (a b : string) :
  strings.count c a = O ->
  strings.Index (a +:+ String c b) (String c "") = strings.len a.
Proof.
  intro H. unfold strings.Index. now rewrite index_nat_byte_app.
Qed.

Lemma count_rev_token (c : ascii) (v : RepoRevSpec) :
  Ascii.eqb "=" c = false ->
  strings.count c (Rev v) = O -> strings.count c (CommitID v) = O ->
  strings.count c (rev_token v) = O.
Proof.
  intros Hc HR HC. unfold rev_token.
  destruct (String.eqb (CommitID v) ""); [exact HR|].
  rewrite !count_app, HR, HC. cbn [strings.count]. now rewrite Hc.
Qed.

(** Decoding when the head token carries no [":"]: the head is read
    against the repository token of the base. *)
Lemma UnmarshalDeltaSpec_same (m : gmap string string) (base head : RepoRevSpec) :
  UnmarshalRepoRevSpec m = Ret (base, None) ->
  strings.count ":" (get m "DeltaHeadRev") = O ->
  (forall m' : gmap string string,
      get m' "RepoSpec" = get m "RepoSpec" ->
      get m' "Rev" = get m "DeltaHeadRev" ->
      UnmarshalRepoRevSpec m' = Ret (head, None)) ->
  UnmarshalDeltaSpec m = Ret (mkDeltaSpec base head, None).
Proof.
  intros HB HC HH. unfold UnmarshalDeltaSpec.
  rewrite HB, bind_Ret, (Index_byte_absent _ _ HC). cbn [Z.eqb negb].
  rewrite HH; [reflexivity | |].
  - rewrite get_insert_ne by discriminate. apply get_singleton_eq.
  - apply get_insert_eq.
Qed.

(** Decoding a cross-repository head token. *)
Lemma UnmarshalDeltaSpec_cross (m : gmap string string) (base head : RepoRevSpec)
      (pc tok : string) :
  UnmarshalRepoRevSpec m = Ret (base, None) ->
  get m "DeltaHeadRev" = base64.EncodeToString pc +:+ ":" +:+ tok ->
  (forall m' : gmap string string,
      get m' "RepoSpec" = pc -> get m' "Rev" = tok ->
      UnmarshalRepoRevSpec m' = Ret (head, None)) ->
  UnmarshalDeltaSpec m = Ret (mkDeltaSpec base head, None).
Proof.
  intros HB HD HH. unfold UnmarshalDeltaSpec.
  rewrite HB, bind_Ret, HD.
  change (base64.EncodeToString pc +:+ ":" +:+ tok)
    with (base64.EncodeToString pc +:+ String ":" tok).
  rewrite (Index_byte_app ":" _ tok (EncodeToString_no_colon pc)).
  replace (strings.len (base64.EncodeToString pc) =? -1) with false
    by (symmetry; apply Z.eqb_neq; unfold strings.len; lia).
  cbn [negb]. rewrite slice_to_app, bind_Ret.
  change (base64.EncodeToString pc +:+ String ":" tok)
    with (base64.EncodeToString pc +:+ ":" +:+ tok).
  change 1 with (strings.len ":").
  rewrite <- len_append, <- append_assoc, slice_from_app, bind_Ret.
  rewrite DecodeString_EncodeToString.
  rewrite HH; [reflexivity | |].
  - rewrite get_insert_ne by discriminate. apply get_singleton_eq.
  - apply get_insert_eq.
Qed.

(** The map that encodes a delta of plain identifiers, and its reading
    of the base. *)
Lemma DeltaSpec_RouteVars_plain (d : DeltaSpec) :
  plain_RepoRevSpec (Base d) = true ->
  plain_RepoRevSpec (Head d) = true ->
  exists (pcB pcH : string),
    PathComponent (Repo (Base d)) = Ret pcB
    /\ PathComponent (Repo (Head d)) = Ret pcH
    /\ let h := if bool_decide (Repo (Base d) = Repo (Head d))
                then rev_token (Head d)
                else base64.EncodeToString pcH +:+ ":" +:+ rev_token (Head d) in
       let m := <[ "DeltaHeadRev" := h ]>
                  (<[ "Rev" := rev_token (Base d) ]>
                     ({[ "RepoSpec" := pcB ]} : gmap string string)) in
       DeltaSpec_RouteVars d = Ret m
       /\ get m "DeltaHeadRev" = h
       /\ get m "RepoSpec" = pcB
       /\ UnmarshalRepoRevSpec m = Ret (Base d, None).
Proof.
  intros PB PH.
  destruct (plain_encoding _ PB) as (pcB & HpcB & HtokB & HdecB).
  destruct (plain_encoding _ PH) as (pcH & HpcH & HtokH & HdecH).
  exists pcB, pcH. split; [exact HpcB|]. split; [exact HpcH|].
  cbv zeta. split; [|split; [|split]].
  - unfold DeltaSpec_RouteVars, RepoRevSpec_RouteVars, RepoSpec_RouteVars,
      encodeCrossRepoRevSpecForDeltaHeadRev.
    rewrite HpcB, HtokB, !bind_Ret.
    destruct (bool_decide (Repo (Base d) = Repo (Head d))).
    + now rewrite HtokH, bind_Ret.
    + now rewrite HpcH, HtokH, !bind_Ret.
  - apply get_insert_eq.
  - rewrite !get_insert_ne by discriminate. apply get_singleton_eq.
  - apply HdecB.
    + rewrite !get_insert_ne by discriminate. apply get_singleton_eq.
    + rewrite get_insert_ne by discriminate. apply get_insert_eq.
Qed.

End deltaspec_facts.

(** * The claims *)

(** ** C1: RepoSpec round trip *)

(** C1, as stated, fails: the URI identifier ["sourcegraph/x"] is valid
    (non-empty, no ["R$"] prefix), is encoded unchanged, and is decoded
    with ["sourcegraph.com/"] put in front of it. *)
Lemma C1_counterexample :
  valid_RepoSpec (mkRepoSpec "sourcegraph/x" 0) = true
  /\ PathComponent (mkRepoSpec "sourcegraph/x" 0) = Ret "sourcegraph/x"
  /\ RepoSpec_roundtrip (mkRepoSpec "sourcegraph/x" 0)
     = Ret (mkRepoSpec "sourcegraph.com/sourcegraph/x" 0, None)
  /\ RepoSpec_roundtrip (mkRepoSpec "sourcegraph/x" 0)
     <> Ret (mkRepoSpec "sourcegraph/x" 0, None).
Proof. repeat split; try reflexivity. discriminate. Qed.

(** C1, amended: for every numeric-ID identifier (0 < RID within [int],
    no URI) and every URI identifier (RID 0, non-empty URI) whose URI
    does not start with ["R$"] or ["sourcegraph/"] and is neither a prefix
    of ["sourcegraph.com/"] nor starts with it,
    [ParseRepoSpec(x.PathComponent())] returns [x] and no error. *)
Theorem C1_roundtrip (x : RepoSpec) :
  plain_RepoSpec x = true -> RepoSpec_roundtrip x = Ret (x, None).
Proof. apply plain_RepoSpec_roundtrip. Qed.

Lemma C1_roundtrip_witness :
  (plain_RepoSpec (mkRepoSpec "src:///a.b/x" 0) = true
   /\ RepoSpec_roundtrip (mkRepoSpec "src:///a.b/x" 0)
      = Ret (mkRepoSpec "src:///a.b/x" 0, None))
  /\ (plain_RepoSpec (mkRepoSpec "" 9223372036854775807) = true
      /\ RepoSpec_roundtrip (mkRepoSpec "" 9223372036854775807)
         = Ret (mkRepoSpec "" 9223372036854775807, None)).
Proof.
  split; (split; [reflexivity | apply C1_roundtrip; reflexivity]).
Defined.

(** ** C2: the home-instance prefix *)

(** C2: what [PathComponent] does where the claim says the prefix
    ["sourcegraph.com/"] is removed.  The prefix test has its arguments
    the other way round: a URI that starts with the prefix is returned
    whole, and a URI that is a proper prefix of ["sourcegraph.com/"] is
    sliced beyond its end. *)
Theorem C2_PathComponent_home_prefix :
  strings.HasPrefix "sourcegraph.com/foo" "sourcegraph.com/" = true
  /\ PathComponent (mkRepoSpec "sourcegraph.com/foo" 0) = Ret "sourcegraph.com/foo"
  /\ strings.HasPrefix "s" "sourcegraph.com/" = false
  /\ PathComponent (mkRepoSpec "s" 0) = Panic "slice bounds out of range".
Proof. repeat split; reflexivity. Qed.

(** ** C3: RepoRevSpec round trip *)

(** C3, as stated, fails: a revision that contains the separator is
    split at it when decoded. *)
Lemma C3_counterexample :
  let v := mkRepoRevSpec (mkRepoSpec "r.com/x" 0) "a===b" "" in
  valid_RepoRevSpec v = true
  /\ RepoRevSpec_roundtrip v
     = Ret (mkRepoRevSpec (mkRepoSpec "r.com/x" 0) "a" "b", None)
  /\ RepoRevSpec_roundtrip v <> Ret (v, None).
Proof. cbv zeta. repeat split; try reflexivity. vm_compute. discriminate. Qed.

(** C3, amended: for every RepoRevSpec [v] whose RepoSpec is as in C1
    amended, and whose Rev contains no ["==="] when CommitID is empty, or
    else is non-empty with no ["==="] starting inside it once the
    separator follows (Rev contains no ["==="] and does not end in
    ["="]), [UnmarshalRepoRevSpec(v.RouteVars())] returns [v] and no
    error. *)
Theorem C3_roundtrip (v : RepoRevSpec) :
  plain_RepoSpec (Repo v) = true ->
  plain_Rev v = true ->
  RepoRevSpec_roundtrip v = Ret (v, None).
Proof.
  intros HR HV. apply plain_RepoRevSpec_roundtrip.
  unfold plain_RepoRevSpec. now rewrite HR, HV.
Qed.

Lemma C3_roundtrip_witness :
  let v := mkRepoRevSpec (mkRepoSpec "src:///a/x" 0) "r" "abc123" in
  plain_RepoSpec (Repo v) = true
  /\ plain_Rev v = true
  /\ RepoRevSpec_roundtrip v = Ret (v, None).
Proof.
  cbv zeta. split; [reflexivity|]. split; [reflexivity|].
  apply C3_roundtrip; reflexivity.
Defined.

(** ** C6: the revision token *)

(** C6: [RevPathComponent] panics exactly when Rev is empty and CommitID
    is not; otherwise it returns Rev alone when CommitID is empty and
    [Rev + "===" + CommitID] when it is not. *)
Theorem C6_RevPathComponent (s : RepoRevSpec) :
  (Rev s = "" -> CommitID s <> "" ->
   RevPathComponent s
   = Panic ("invalid empty Rev but non-empty CommitID (" +:+ CommitID s +:+ ")"))
  /\ (Rev s <> "" \/ CommitID s = "" ->
      RevPathComponent s
      = Ret (if String.eqb (CommitID s) "" then Rev s
             else Rev s +:+ "===" +:+ CommitID s)).
Proof.
  unfold RevPathComponent, repoRevSpecCommitSep.
  destruct (String.eqb_spec (Rev s) "") as [Er|Er],
           (String.eqb_spec (CommitID s) "") as [Ec|Ec]; cbn [andb negb];
    split; intros; try reflexivity; try contradiction; tauto.
Qed.

Lemma C6_RevPathComponent_witness :
  RevPathComponent (mkRepoRevSpec (mkRepoSpec "r.com/x" 0) "" "abc")
  = Panic "invalid empty Rev but non-empty CommitID (abc)"
  /\ RevPathComponent (mkRepoRevSpec (mkRepoSpec "r.com/x" 0) "r" "abc123")
     = Ret "r===abc123"
  /\ RevPathComponent (mkRepoRevSpec (mkRepoSpec "r.com/x" 0) "master" "")
     = Ret "master".
Proof.
  split; [|split].
  - apply (proj1 (C6_RevPathComponent
                    (mkRepoRevSpec (mkRepoSpec "r.com/x" 0) "" "abc")));
      [reflexivity | discriminate].
  - apply (proj2 (C6_RevPathComponent
                    (mkRepoRevSpec (mkRepoSpec "r.com/x" 0) "r" "abc123"))).
    left. discriminate.
  - apply (proj2 (C6_RevPathComponent
                    (mkRepoRevSpec (mkRepoSpec "r.com/x" 0) "master" ""))).
    right. reflexivity.
Defined.

(** ** C4: deltas within one repository *)

(** C4, as stated, fails: a head revision with a [":"] in it is encoded
    as it is, so the head token contains a [":"] and is decoded as a
    cross-repository token, whose base64 part is then rejected. *)
Lemma C4_counterexample :
  let d := mkDeltaSpec (mkRepoRevSpec (mkRepoSpec "r.com/x" 0) "v1" "")
                       (mkRepoRevSpec (mkRepoSpec "r.com/x" 0) "a:b" "") in
  valid_DeltaSpec d = true
  /\ Repo (Base d) = Repo (Head d)
  /\ DeltaHeadRev d = Ret "a:b"
  /\ strings.count ":" "a:b" = 1%nat
  /\ DeltaSpec_roundtrip d = Ret (DeltaSpec_zero, Some CorruptInputError).
Proof. cbv zeta. repeat split; vm_compute; reflexivity. Qed.

(** C4, amended: for every DeltaSpec [d] whose Base and Head are as in
    C3 amended, have equal RepoSpec fields, and whose Head has no [":"]
    in Rev or CommitID, the ["DeltaHeadRev"] route variable is the head's
    revision token and contains no [":"], and
    [UnmarshalDeltaSpec(d.RouteVars())] returns [d] (so the same Head
    under the shared repository) and no error. *)
Theorem C4_same_repo (d : DeltaSpec) :
  plain_RepoRevSpec (Base d) = true ->
  plain_RepoRevSpec (Head d) = true ->
  Repo (Base d) = Repo (Head d) ->
  strings.count ":" (Rev (Head d)) = O ->
  strings.count ":" (CommitID (Head d)) = O ->
  exists tok,
    RevPathComponent (Head d) = Ret tok
    /\ DeltaHeadRev d = Ret tok
    /\ strings.count ":" tok = O
    /\ DeltaSpec_roundtrip d = Ret (d, None).
Proof.
  intros PB PH E CR CC.
  destruct (DeltaSpec_RouteVars_plain d PB PH)
    as (pcB & pcH & HpcB & HpcH & Hm & Hh & Hr & HB).
  destruct (plain_encoding _ PH) as (pcH' & HpcH' & HtokH & HdecH).
  rewrite HpcH in HpcH'. injection HpcH' as <-.
  rewrite E in HpcB. rewrite HpcH in HpcB. injection HpcB as <-.
  rewrite (bool_decide_eq_true_2 _ E) in *.
  assert (C0 : strings.count ":" (rev_token (Head d)) = O)
    by (now apply count_rev_token).
  exists (rev_token (Head d)). split; [exact HtokH|]. split; [|split].
  - unfold DeltaHeadRev. now rewrite Hm, bind_Ret, Hh.
  - exact C0.
  - unfold DeltaSpec_roundtrip. rewrite Hm, bind_Ret.
    destruct d as [b h]. cbn [Base Head] in *.
    apply UnmarshalDeltaSpec_same; [exact HB | now rewrite Hh |].
    intros m' H1 H2. apply HdecH; [now rewrite H1, Hr | now rewrite H2, Hh].
Qed.

Lemma C4_same_repo_witness :
  let d := mkDeltaSpec (mkRepoRevSpec (mkRepoSpec "r.com/x" 0) "v1" "")
                       (mkRepoRevSpec (mkRepoSpec "r.com/x" 0) "v2" "") in
  RevPathComponent (Head d) = Ret "v2"
  /\ DeltaHeadRev d = Ret "v2"
  /\ DeltaSpec_roundtrip d = Ret (d, None).
Proof.
  cbv zeta.
  destruct (C4_same_repo
              (mkDeltaSpec (mkRepoRevSpec (mkRepoSpec "r.com/x" 0) "v1" "")
                           (mkRepoRevSpec (mkRepoSpec "r.com/x" 0) "v2" "")))
    as (tok & Ht & Hd & _ & Hrt); try reflexivity.
  split; [reflexivity|]. split; [reflexivity|]. exact Hrt.
Defined.

(** ** C5: deltas across repositories *)

(** C5, as stated, fails: the head's revision token is appended as it
    is, so a [":"] in the head revision gives a head token with two. *)
Lemma C5_counterexample :
  let d := mkDeltaSpec (mkRepoRevSpec (mkRepoSpec "r.com/x" 0) "v1" "")
                       (mkRepoRevSpec (mkRepoSpec "r.com/y" 0) "a:b" "") in
  valid_DeltaSpec d = true
  /\ Repo (Base d) <> Repo (Head d)
  /\ DeltaHeadRev d = Ret "ci5jb20veQ==:a:b"
  /\ strings.count ":" "ci5jb20veQ==:a:b" = 2%nat.
Proof. cbv zeta. repeat split; try (vm_compute; reflexivity). discriminate. Qed.

(** C5, amended: for every DeltaSpec [d] whose Base and Head are as in
    C3 amended and have different RepoSpec fields, the ["DeltaHeadRev"]
    route variable is [base64url(head repository token) + ":" + head
    revision token]; the base64 part contains no [":"], so the token
    has one [":"] more than the head revision token (exactly one when
    that has none); and [UnmarshalDeltaSpec(d.RouteVars())] returns [d],
    with the original Head repository and revision, and no error. *)
Theorem C5_cross_repo (d : DeltaSpec) :
  plain_RepoRevSpec (Base d) = true ->
  plain_RepoRevSpec (Head d) = true ->
  Repo (Base d) <> Repo (Head d) ->
  exists pc tok,
    PathComponent (Repo (Head d)) = Ret pc
    /\ RevPathComponent (Head d) = Ret tok
    /\ DeltaHeadRev d = Ret (base64.EncodeToString pc +:+ ":" +:+ tok)
    /\ strings.count ":" (base64.EncodeToString pc) = O
    /\ strings.count ":" (base64.EncodeToString pc +:+ ":" +:+ tok)
       = S (strings.count ":" tok)
    /\ DeltaSpec_roundtrip d = Ret (d, None).
Proof.
  intros PB PH NE.
  destruct (DeltaSpec_RouteVars_plain d PB PH)
    as (pcB & pcH & HpcB & HpcH & Hm & Hh & Hr & HB).
  destruct (plain_encoding _ PH) as (pcH' & HpcH' & HtokH & HdecH).
  rewrite HpcH in HpcH'. injection HpcH' as <-.
  rewrite (bool_decide_eq_false_2 _ NE) in *.
  exists pcH, (rev_token (Head d)).
  split; [exact HpcH|]. split; [exact HtokH|]. split; [|split; [|split]].
  - unfold DeltaHeadRev. now rewrite Hm, bind_Ret, Hh.
  - apply EncodeToString_no_colon.
  - rewrite !count_app, EncodeToString_no_colon. reflexivity.
  - unfold DeltaSpec_roundtrip. rewrite Hm, bind_Ret.
    destruct d as [b h]. cbn [Base Head] in *.
    apply (UnmarshalDeltaSpec_cross _ b h pcH (rev_token h));
      [exact HB | exact Hh | exact HdecH].
Qed.

Lemma C5_cross_repo_witness :
  let d := mkDeltaSpec (mkRepoRevSpec (mkRepoSpec "r.com/x" 0) "v1" "")
                       (mkRepoRevSpec (mkRepoSpec "r.com/y" 0) "v2" "") in
  Repo (Base d) <> Repo (Head d)
  /\ DeltaHeadRev d = Ret (base64.EncodeToString "r.com/y" +:+ ":v2")
  /\ DeltaSpec_roundtrip d = Ret (d, None).
Proof.
  cbv zeta.
  assert (NE : mkRepoSpec "r.com/x" 0 <> mkRepoSpec "r.com/y" 0) by discriminate.
  destruct (C5_cross_repo
              (mkDeltaSpec (mkRepoRevSpec (mkRepoSpec "r.com/x" 0) "v1" "")
                           (mkRepoRevSpec (mkRepoSpec "r.com/y" 0) "v2" ""))
              eq_refl eq_refl NE)
    as (pc & tok & _ & _ & _ & _ & _ & Hrt).
  split; [exact NE|]. split; [reflexivity | exact Hrt].
Defined.

(** ** C7: a commit ID without a revision is refused when decoding *)

(** C7: when the ["Rev"] route variable is ["==="] followed by a
    non-empty commit ID (so that the split gives an empty Rev),
    [UnmarshalRepoRevSpec] returns, with the zero value and an error, and
    does not panic; when the repository token decodes without error, the
    error is the one that names the commit ID. *)
Theorem C7_commit_without_rev (m : gmap string string) (cid : string) :
  get m "Rev" = "===" +:+ cid ->
  cid <> "" ->
  exists e,
    UnmarshalRepoRevSpec m = Ret (RepoRevSpec_zero, Some e)
    /\ forall repo,
         ParseRepoSpec (get m "RepoSpec") = Ret (repo, None) ->
         e = FmtErrorf "invalid empty Rev but non-empty CommitID (%q)" [cid].
Proof.
  intros HR Hc.
  destruct (ParseRepoSpec_returns (get m "RepoSpec")) as [[repo [e|]] HP];
    unfold UnmarshalRepoRevSpec, UnmarshalRepoSpec, repoRevSpecCommitSep;
    rewrite HP, bind_Ret.
  - exists e. split; [reflexivity|]. intros repo' H. discriminate H.
  - rewrite HR.
    assert (I : strings.Index ("===" +:+ cid) "===" = 0)
      by (unfold strings.Index; now destruct cid).
    rewrite I. cbn [Z.eqb].
    rewrite (slice_to_app "" ("===" +:+ cid)
             : strings.slice_to ("===" +:+ cid) 0 = Ret ""), bind_Ret.
    rewrite (slice_from_app "===" cid
             : strings.slice_from ("===" +:+ cid) (0 + strings.len "===") = Ret cid).
    rewrite !bind_Ret.
    destruct (String.eqb_spec cid "") as [->|_]; [contradiction|].
    cbn [String.eqb andb negb].
    eexists. split; [reflexivity|]. reflexivity.
Qed.

Lemma C7_commit_without_rev_witness :
  exists e,
    UnmarshalRepoRevSpec
      (<[ "Rev" := "===abc" ]> ({[ "RepoSpec" := "r.com/x" ]} : gmap string string))
    = Ret (RepoRevSpec_zero, Some e)
    /\ forall repo,
         ParseRepoSpec
           (get (<[ "Rev" := "===abc" ]>
                   ({[ "RepoSpec" := "r.com/x" ]} : gmap string string)) "RepoSpec")
         = Ret (repo, None) ->
         e = FmtErrorf "invalid empty Rev but non-empty CommitID (%q)" ["abc"].
Proof.
  apply (C7_commit_without_rev
           (<[ "Rev" := "===abc" ]> ({[ "RepoSpec" := "r.com/x" ]} : gmap string string))
           "abc"); [reflexivity | discriminate].
Defined.

(** ** C8: decoding numeric identifiers *)

(** C8: [ParseRepoSpec] returns the "empty repository spec" error on the
    empty token.  On ["R$"] followed by a decimal literal of an [int] (an
    optional sign and one or more decimal digits, with a value in the
    range of [int]) it returns the numeric-ID identifier of that value
    and no error; on ["R$"] followed by anything else it returns the
    [NumError] of [Atoi]. *)
Theorem C8_ParseRepoSpec_numeric :
  ParseRepoSpec "" = Ret (RepoSpec_zero, Some (ErrorsNew "empty repository spec"))
  /\ (forall rest z,
         strconv.decimal_int rest = Some z ->
         ParseRepoSpec ("R$" +:+ rest) = Ret (mkRepoSpec "" z, None))
  /\ (forall rest,
         strconv.decimal_int rest = None ->
         exists rid e,
           ParseRepoSpec ("R$" +:+ rest)
           = Ret (mkRepoSpec "" rid, Some (NumError "Atoi" rest e))).
Proof.
  split; [reflexivity|]. split.
  - intros rest z H. rewrite ParseRepoSpec_numeric.
    pose proof (Atoi_decimal rest) as A. rewrite H in A. now rewrite A.
  - intros rest H. rewrite ParseRepoSpec_numeric.
    pose proof (Atoi_decimal rest) as A. rewrite H in A.
    destruct A as (w & e & ->). eauto.
Qed.

Lemma C8_ParseRepoSpec_numeric_witness :
  ParseRepoSpec "R$12345" = Ret (mkRepoSpec "" 12345, None)
  /\ exists rid e,
       ParseRepoSpec "R$12a" = Ret (mkRepoSpec "" rid, Some (NumError "Atoi" "12a" e)).
Proof.
  split.
  - apply (proj1 (proj2 C8_ParseRepoSpec_numeric) "12345" 12345). reflexivity.
  - apply (proj2 (proj2 C8_ParseRepoSpec_numeric) "12a"). reflexivity.
Defined.

(** ** C9: classification of a def delta *)

(** C9: [Added] holds iff Base is nil and Head is not, [Changed] iff
    neither is nil, [Deleted] iff Head is nil and Base is not; no two of
    them hold together, and none holds when both are nil. *)
Theorem C9_DefDelta_states (Def : Type) (dd : DefDelta Def) :
  (Added dd = true <-> dd_Base dd = None /\ dd_Head dd <> None)
  /\ (Changed dd = true <-> dd_Base dd <> None /\ dd_Head dd <> None)
  /\ (Deleted dd = true <-> dd_Base dd <> None /\ dd_Head dd = None)
  /\ Added dd && Changed dd = false
  /\ Added dd && Deleted dd = false
  /\ Changed dd && Deleted dd = false
  /\ Added (mkDefDelta (@None Def) None) = false
  /\ Changed (mkDefDelta (@None Def) None) = false
  /\ Deleted (mkDefDelta (@None Def) None) = false.
Proof.
  destruct dd as [[b|] [h|]]; unfold Added, Changed, Deleted; cbn;
    repeat split; intros; try congruence; try tauto;
    try (destruct H; congruence).
Qed.

(** ** C10: decoded identifiers that cannot be encoded *)

(** C10: the non-empty tokens ["R$0"] and ["R$-3"] are decoded without
    error to identifiers with a non-positive RID and no URI, and
    [PathComponent] panics on each of them. *)
Theorem C10_decoded_empty_identifier :
  (ParseRepoSpec "R$0" = Ret (mkRepoSpec "" 0, None)
   /\ PathComponent (mkRepoSpec "" 0) = Panic "empty RepoSpec")
  /\ (ParseRepoSpec "R$-3" = Ret (mkRepoSpec "" (-3), None)
      /\ PathComponent (mkRepoSpec "" (-3)) = Panic "empty RepoSpec")
  /\ exists tok r,
       tok <> "" /\ ParseRepoSpec tok = Ret (r, None)
       /\ RID r <= 0 /\ URI r = "" /\ panics (PathComponent r).
Proof.
  split; [split; reflexivity|]. split; [split; reflexivity|].
  exists "R$0", (mkRepoSpec "" 0).
  split; [discriminate|]. split; [reflexivity|]. split; [simpl; lia|].
  split; [reflexivity | exact I].
Qed.

(** * Decoding any map, encoding any identifier *)

(** ** Searching and slicing *)

Section index_facts.

Lemma prefix_app_mono (p a b : string) :
  String.prefix p a = true -> String.prefix p (a +:+ b) = true.
Proof.
  intro H. apply prefix_inv in H as [t ->].
  rewrite append_assoc. apply prefix_app.
Qed.

(** An occurrence found at [i] splits the string there. *)
Lemma index_nat_split (s substr : string) (i : nat) :
  strings.index_nat s substr = Some i ->
  exists a b, s = a +:+ substr +:+ b /\ String.length a = i.
Proof.
  revert i. induction s as [|x s IH]; intros i H.
  - cbn [strings.index_nat] in H.
    destruct (String.prefix substr "") eqn:P; [|discriminate].
    injection H as <-. apply prefix_inv in P as [t E].
    exists "", t. now split.
  - rewrite index_nat_cons in H.
    destruct (String.prefix substr (String x s)) eqn:P.
    + injection H as <-. apply prefix_inv in P as [t E].
      exists "", t. now split.
    + destruct (strings.index_nat s substr) as [j|] eqn:E; [|discriminate].
      injection H as <-. destruct (IH j eq_refl) as (a & b & -> & L).
      exists (String x a), b. split; [reflexivity | simpl; now rewrite L].
Qed.

(** Nothing is found before the first occurrence. *)
Lemma index_nat_before (a b substr : string) :
  substr <> "" ->
  strings.index_nat (a +:+ b) substr = Some (String.length a) ->
  strings.index_nat a substr = None.
Proof.
  intros Hne. induction a as [|x a IH]; intro H.
  - destruct substr; [contradiction | reflexivity].
  - change (String x a +:+ b) with (String x (a +:+ b)) in H.
    rewrite index_nat_cons in H |- *.
    destruct (String.prefix substr (String x (a +:+ b))) eqn:P; [discriminate|].
    destruct (strings.index_nat (a +:+ b) substr) as [j|] eqn:E; [|discriminate].
    injection H as ->. rewrite (IH eq_refl).
    destruct (String.prefix substr (String x a)) eqn:Q; [|reflexivity].
    apply (prefix_app_mono _ _ b) in Q.
    change (String x a +:+ b) with (String x (a +:+ b)) in Q. congruence.
Qed.

Lemma Index_none (s substr : string) :
  strings.index_nat s substr = None -> strings.Index s substr = -1.
Proof. unfold strings.Index. now intros ->. Qed.

Lemma Index_some (s substr : string) (i : nat) :
  strings.index_nat s substr = Some i -> strings.Index s substr = Z.of_nat i.
Proof. unfold strings.Index. now intros ->. Qed.

End index_facts.

(** ** Decoding any route-variable map *)

Section unmarshal_facts.

(** The three ways [UnmarshalRepoRevSpec] ends: the repository token is
    refused; the revision token has no separator; the revision token is
    split at its first separator. *)
Lemma UnmarshalRepoRevSpec_cases (m : gmap string string) :
  (exists repo e,
      ParseRepoSpec (get m "RepoSpec") = Ret (repo, Some e)
      /\ UnmarshalRepoRevSpec m = Ret (RepoRevSpec_zero, Some e))
  \/ (exists repo,
         ParseRepoSpec (get m "RepoSpec") = Ret (repo, None)
         /\ strings.index_nat (get m "Rev") "===" = None
         /\ UnmarshalRepoRevSpec m = Ret (mkRepoRevSpec repo (get m "Rev") "", None))
  \/ (exists repo rev cid,
         ParseRepoSpec (get m "RepoSpec") = Ret (repo, None)
         /\ get m "Rev" = rev +:+ "===" +:+ cid
         /\ strings.index_nat rev "===" = None
         /\ ((rev = "" /\ cid <> ""
              /\ UnmarshalRepoRevSpec m
                 = Ret (RepoRevSpec_zero,
                        Some (FmtErrorf "invalid empty Rev but non-empty CommitID (%q)"
                                        [cid])))
             \/ ((rev <> "" \/ cid = "")
                 /\ UnmarshalRepoRevSpec m = Ret (mkRepoRevSpec repo rev cid, None)))).
Proof.
  destruct (ParseRepoSpec_returns (get m "RepoSpec")) as [[repo [e|]] HP].
  - left. exists repo, e. split; [exact HP|].
    unfold UnmarshalRepoRevSpec, UnmarshalRepoSpec. now rewrite HP.
  - right.
    destruct (strings.index_nat (get m "Rev") "===") as [i|] eqn:I.
    + right. destruct (index_nat_split _ _ _ I) as (rev & cid & E & L). subst i.
      exists repo, rev, cid. split; [exact HP|]. split; [exact E|].
      rewrite E in I. split; [now apply (index_nat_before rev ("===" +:+ cid))|].
      unfold UnmarshalRepoRevSpec, UnmarshalRepoSpec, repoRevSpecCommitSep.
      rewrite HP, bind_Ret, E, (Index_some _ _ _ I).
      replace (Z.of_nat (String.length rev) =? -1) with false
        by (symmetry; apply Z.eqb_neq; lia).
      change (Z.of_nat (String.length rev)) with (strings.len rev).
      rewrite slice_to_app, bind_Ret.
      rewrite <- len_append, <- append_assoc, slice_from_app, !bind_Ret.
      destruct (String.eqb_spec rev "") as [Hr|Hr],
               (String.eqb_spec cid "") as [Hc|Hc]; cbn [andb negb]; auto.
    + left. exists repo. split; [exact HP|]. split; [reflexivity|].
      unfold UnmarshalRepoRevSpec, UnmarshalRepoSpec, repoRevSpecCommitSep.
      rewrite HP, bind_Ret, (Index_none _ _ I), Z.eqb_refl, bind_Ret.
      now destruct (get m "Rev").
Qed.

Lemma UnmarshalRepoRevSpec_returns (m : gmap string string) :
  exists r, UnmarshalRepoRevSpec m = Ret r.
Proof.
  destruct (UnmarshalRepoRevSpec_cases m)
    as [(? & ? & _ & ->) | [(? & _ & _ & ->)
        | (? & ? & ? & _ & _ & _ & [(_ & _ & ->) | (_ & ->)])]]; eauto.
Qed.

(** Without an error the decoded pair keeps the invariant, and its
    revision holds no separator. *)
Lemma UnmarshalRepoRevSpec_ok (m : gmap string string) (v : RepoRevSpec) :
  UnmarshalRepoRevSpec m = Ret (v, None) ->
  ParseRepoSpec (get m "RepoSpec") = Ret (Repo v, None)
  /\ (Rev v <> "" \/ CommitID v = "")
  /\ strings.index_nat (Rev v) "===" = None
  /\ (get m "Rev" = Rev v /\ CommitID v = ""
      \/ get m "Rev" = Rev v +:+ "===" +:+ CommitID v).
Proof.
  intro H.
  destruct (UnmarshalRepoRevSpec_cases m)
    as [(? & ? & _ & E) | [(repo & HP & I & E)
        | (repo & rev & cid & HP & HR & I & [(_ & _ & E) | (Hv & E)])]];
    rewrite E in H; try discriminate H; injection H as <-; cbn [Repo Rev CommitID].
  - repeat split; auto.
  - repeat split; auto.
Qed.

(** With an error the value is the zero value. *)
Lemma UnmarshalRepoRevSpec_err (m : gmap string string) (v : RepoRevSpec) (e : error) :
  UnmarshalRepoRevSpec m = Ret (v, Some e) -> v = RepoRevSpec_zero.
Proof.
  intro H.
  destruct (UnmarshalRepoRevSpec_cases m)
    as [(? & ? & _ & E) | [(repo & HP & I & E)
        | (repo & rev & cid & HP & HR & I & [(_ & _ & E) | (Hv & E)])]];
    rewrite E in H; try discriminate H; now injection H as <-.
Qed.

End unmarshal_facts.

Section unmarshal_delta_facts.

(** The map from which the head is decoded against the base's token. *)
Lemma get_pair_RepoSpec (pc rev : string) :
  get (<[ "Rev" := rev ]> ({[ "RepoSpec" := pc ]} : gmap string string)) "RepoSpec" = pc.
Proof. rewrite get_insert_ne by discriminate. apply get_singleton_eq. Qed.

Lemma get_pair_Rev (pc rev : string) :
  get (<[ "Rev" := rev ]> ({[ "RepoSpec" := pc ]} : gmap string string)) "Rev" = rev.
Proof. apply get_insert_eq. Qed.

Lemma UnmarshalDeltaSpec_base_err (m : gmap string string) (v : RepoRevSpec) (e : error) :
  UnmarshalRepoRevSpec m = Ret (v, Some e) ->
  UnmarshalDeltaSpec m = Ret (DeltaSpec_zero, Some e).
Proof. intro H. unfold UnmarshalDeltaSpec. now rewrite H. Qed.

Lemma UnmarshalDeltaSpec_no_colon (m : gmap string string) (base : RepoRevSpec) :
  UnmarshalRepoRevSpec m = Ret (base, None) ->
  strings.index_nat (get m "DeltaHeadRev") ":" = None ->
  UnmarshalDeltaSpec m =
    UnmarshalRepoRevSpec
      (<[ "Rev" := get m "DeltaHeadRev" ]> {[ "RepoSpec" := get m "RepoSpec" ]})
    ≫= head_result base.
Proof.
  intros HB I. unfold UnmarshalDeltaSpec.
  rewrite HB, bind_Ret, (Index_none _ _ I), Z.eqb_refl. reflexivity.
Qed.

Lemma UnmarshalDeltaSpec_colon (m : gmap string string) (base : RepoRevSpec)
      (a b : string) :
  UnmarshalRepoRevSpec m = Ret (base, None) ->
  get m "DeltaHeadRev" = a +:+ ":" +:+ b ->
  strings.index_nat (get m "DeltaHeadRev") ":" = Some (String.length a) ->
  UnmarshalDeltaSpec m =
    match base64.DecodeString a with
    | inr err => Ret (DeltaSpec_zero, Some err)
    | inl repoPC =>
        UnmarshalRepoRevSpec (<[ "Rev" := b ]> {[ "RepoSpec" := repoPC ]})
        ≫= head_result base
    end.
Proof.
  intros HB E I. unfold UnmarshalDeltaSpec.
  rewrite HB, bind_Ret, (Index_some _ _ _ I), E.
  replace (Z.of_nat (String.length a) =? -1) with false
    by (symmetry; apply Z.eqb_neq; lia).
  cbn [negb]. change (Z.of_nat (String.length a)) with (strings.len a).
  rewrite slice_to_app, bind_Ret.
  change 1 with (strings.len ":").
  rewrite <- len_append, <- append_assoc, slice_from_app, bind_Ret.
  destruct (base64.DecodeString a); reflexivity.
Qed.

Lemma head_result_returns (base : RepoRevSpec) (m : gmap string string) :
  exists r, UnmarshalRepoRevSpec m ≫= head_result base = Ret r.
Proof.
  destruct (UnmarshalRepoRevSpec_returns m) as [[v [e|]] ->]; rewrite bind_Ret;
    simpl; eauto.
Qed.

Lemma UnmarshalDeltaSpec_returns (m : gmap string string) :
  exists r, UnmarshalDeltaSpec m = Ret r.
Proof.
  destruct (UnmarshalRepoRevSpec_returns m) as [[base [e|]] HB].
  - rewrite (UnmarshalDeltaSpec_base_err _ _ _ HB). eauto.
  - destruct (strings.index_nat (get m "DeltaHeadRev") ":") as [i|] eqn:I.
    + destruct (index_nat_split _ _ _ I) as (a & b & E & L). subst i.
      rewrite (UnmarshalDeltaSpec_colon _ _ a b HB E I).
      destruct (base64.DecodeString a); [apply head_result_returns | eauto].
    + rewrite (UnmarshalDeltaSpec_no_colon _ _ HB I). apply head_result_returns.
Qed.

End unmarshal_delta_facts.

(** ** Encoding any identifier *)

Section encode_facts.

Lemma RepoRevSpec_RouteVars_inv (v : RepoRevSpec) (m : gmap string string) :
  RepoRevSpec_RouteVars v = Ret m <->
  exists pc tok,
    PathComponent (Repo v) = Ret pc /\ RevPathComponent v = Ret tok
    /\ m = <[ "Rev" := tok ]> {[ "RepoSpec" := pc ]}.
Proof.
  unfold RepoRevSpec_RouteVars, RepoSpec_RouteVars. split.
  - destruct (PathComponent (Repo v)) as [pc|]; [|discriminate].
    rewrite !bind_Ret.
    destruct (RevPathComponent v) as [tok|]; [|discriminate].
    rewrite bind_Ret. intros [= <-]. eauto.
  - intros (pc & tok & -> & -> & ->). reflexivity.
Qed.

Lemma DeltaSpec_RouteVars_inv (d : DeltaSpec) (m : gmap string string) :
  DeltaSpec_RouteVars d = Ret m <->
  exists pcB tokB pcH tokH,
    PathComponent (Repo (Base d)) = Ret pcB
    /\ RevPathComponent (Base d) = Ret tokB
    /\ PathComponent (Repo (Head d)) = Ret pcH
    /\ RevPathComponent (Head d) = Ret tokH
    /\ m = <[ "DeltaHeadRev" := head_token d pcH tokH ]>
             (<[ "Rev" := tokB ]> {[ "RepoSpec" := pcB ]}).
Proof.
  unfold DeltaSpec_RouteVars, RepoRevSpec_RouteVars, RepoSpec_RouteVars,
    encodeCrossRepoRevSpecForDeltaHeadRev, head_token. split.
  - destruct (PathComponent (Repo (Base d))) as [pcB|] eqn:EB; [|discriminate].
    rewrite !bind_Ret.
    destruct (RevPathComponent (Base d)) as [tokB|]; [|discriminate].
    rewrite !bind_Ret.
    destruct (bool_decide (Repo (Base d) = Repo (Head d))) eqn:D.
    + apply bool_decide_eq_true_1 in D.
      destruct (RevPathComponent (Head d)) as [tokH|]; [|discriminate].
      rewrite bind_Ret. intros [= <-].
      exists pcB, tokB, pcB, tokH. rewrite <- D. auto.
    + destruct (PathComponent (Repo (Head d))) as [pcH|]; [|discriminate].
      rewrite bind_Ret.
      destruct (RevPathComponent (Head d)) as [tokH|]; [|discriminate].
      rewrite !bind_Ret. intros [= <-].
      exists pcB, tokB, pcH, tokH. auto.
  - intros (pcB & tokB & pcH & tokH & -> & -> & HH & -> & ->).
    rewrite !bind_Ret. destruct (bool_decide _); [reflexivity|].
    now rewrite HH.
Qed.

Lemma UnmarshalRepoRevSpec_ext (m m' : gmap string string) :
  get m "RepoSpec" = get m' "RepoSpec" -> get m "Rev" = get m' "Rev" ->
  UnmarshalRepoRevSpec m = UnmarshalRepoRevSpec m'.
Proof.
  intros H1 H2. unfold UnmarshalRepoRevSpec, UnmarshalRepoSpec. now rewrite H1, H2.
Qed.

End encode_facts.

(** * Further properties of the codec *)

(** X1: no decoder panics.  [ParseRepoSpec] returns on every token, and
    [UnmarshalRepoSpec], [UnmarshalRepoRevSpec] and [UnmarshalDeltaSpec]
    return on every route-variable map: each slice they take is within
    bounds. *)
Theorem X1_decoders_never_panic :
  (forall pc : string, exists x err, ParseRepoSpec pc = Ret (x, err))
  /\ (forall m : gmap string string, exists x err, UnmarshalRepoSpec m = Ret (x, err))
  /\ (forall m : gmap string string, exists v err, UnmarshalRepoRevSpec m = Ret (v, err))
  /\ (forall m : gmap string string, exists d err, UnmarshalDeltaSpec m = Ret (d, err)).
Proof.
  split; [|split; [|split]].
  - intro pc. destruct (ParseRepoSpec_returns pc) as [[x err] H]. eauto.
  - intro m. unfold UnmarshalRepoSpec.
    destruct (ParseRepoSpec_returns (get m "RepoSpec")) as [[x err] H]. eauto.
  - intro m. destruct (UnmarshalRepoRevSpec_returns m) as [[v err] H]. eauto.
  - intro m. destruct (UnmarshalDeltaSpec_returns m) as [[d err] H]. eauto.
Qed.

(** X2: a revision identifier decoded without error keeps the
    invariant (a commit ID only together with a revision), its revision
    contains no ["==="], and [RevPathComponent] does not panic on it. *)
Theorem X2_decoded_revision_invariant (m : gmap string string) (v : RepoRevSpec) :
  UnmarshalRepoRevSpec m = Ret (v, None) ->
  (Rev v <> "" \/ CommitID v = "")
  /\ strings.Index (Rev v) "===" = -1
  /\ RevPathComponent v = Ret (rev_token v).
Proof.
  intro H. destruct (UnmarshalRepoRevSpec_ok m v H) as (_ & Inv & I & _).
  split; [exact Inv|]. split; [now apply Index_none|].
  apply RevPathComponent_valid.
  destruct Inv as [Hr| ->]; [|reflexivity].
  destruct (String.eqb_spec (Rev v) ""); [contradiction|]. apply orb_true_r.
Qed.

Lemma X2_decoded_revision_invariant_witness :
  let m : gmap string string :=
    <[ "Rev" := "master===deadbeef" ]> {[ "RepoSpec" := "r.com/x" ]} in
  let v := mkRepoRevSpec (mkRepoSpec "r.com/x" 0) "master" "deadbeef" in
  UnmarshalRepoRevSpec m = Ret (v, None)
  /\ strings.Index (Rev v) "===" = -1
  /\ RevPathComponent v = Ret "master===deadbeef".
Proof.
  cbv zeta. split; [reflexivity|].
  apply (X2_decoded_revision_invariant
           (<[ "Rev" := "master===deadbeef" ]> {[ "RepoSpec" := "r.com/x" ]})
           (mkRepoRevSpec (mkRepoSpec "r.com/x" 0) "master" "deadbeef")).
  reflexivity.
Defined.

(** X3: encoding what was decoded.  When [UnmarshalRepoRevSpec] returns
    [v] without error, [v.RevPathComponent()] is the ["Rev"] route
    variable it was decoded from, or that variable without its final
    ["==="] when the variable ends with its first ["==="]. *)
Theorem X3_reencode_decoded_revision (m : gmap string string) (v : RepoRevSpec) :
  UnmarshalRepoRevSpec m = Ret (v, None) ->
  exists tok,
    RevPathComponent v = Ret tok
    /\ (get m "Rev" = tok \/ (get m "Rev" = tok +:+ "===" /\ CommitID v = "")).
Proof.
  intro H. destruct (UnmarshalRepoRevSpec_ok m v H) as (_ & Inv & _ & Tok).
  exists (rev_token v). split.
  - apply RevPathComponent_valid.
    destruct Inv as [Hr| ->]; [|reflexivity].
    destruct (String.eqb_spec (Rev v) ""); [contradiction|]. apply orb_true_r.
  - unfold rev_token. destruct (String.eqb_spec (CommitID v) "") as [Hc|Hc].
    + destruct Tok as [[T _]|T]; [now left|]. right.
      rewrite Hc in T. now split.
    + destruct Tok as [[_ T]|T]; [contradiction | now left].
Qed.

Lemma X3_reencode_decoded_revision_witness :
  exists tok,
    RevPathComponent (mkRepoRevSpec (mkRepoSpec "r.com/x" 0) "v1" "") = Ret tok
    /\ (get (<[ "Rev" := "v1===" ]> ({[ "RepoSpec" := "r.com/x" ]} : gmap string string))
            "Rev" = tok
        \/ (get (<[ "Rev" := "v1===" ]> ({[ "RepoSpec" := "r.com/x" ]} : gmap string string))
                "Rev" = tok +:+ "==="
            /\ CommitID (mkRepoRevSpec (mkRepoSpec "r.com/x" 0) "v1" "") = "")).
Proof.
  apply (X3_reencode_decoded_revision
           (<[ "Rev" := "v1===" ]> {[ "RepoSpec" := "r.com/x" ]})
           (mkRepoRevSpec (mkRepoSpec "r.com/x" 0) "v1" "")).
  reflexivity.
Defined.

(** X4: with an error, [UnmarshalRepoRevSpec] and [UnmarshalDeltaSpec]
    return the zero value, never a partly filled one (although
    [ParseRepoSpec] itself returns the clamped RID beside a range error). *)
Theorem X4_error_gives_zero_value (m : gmap string string) :
  (forall v e, UnmarshalRepoRevSpec m = Ret (v, Some e) -> v = RepoRevSpec_zero)
  /\ (forall d e, UnmarshalDeltaSpec m = Ret (d, Some e) -> d = DeltaSpec_zero).
Proof.
  split.
  - intros v e. apply UnmarshalRepoRevSpec_err.
  - intros d e H.
    destruct (UnmarshalRepoRevSpec_returns m) as [[base [eb|]] HB].
    + rewrite (UnmarshalDeltaSpec_base_err _ _ _ HB) in H. now injection H as <-.
    + assert (R : forall m', UnmarshalRepoRevSpec m' ≫= head_result base
                             = Ret (d, Some e) -> d = DeltaSpec_zero).
      { intros m' Hm. destruct (UnmarshalRepoRevSpec_returns m') as [[h [eh|]] Hh];
          rewrite Hh, bind_Ret in Hm; simpl in Hm; [now injection Hm as <-|].
        discriminate Hm. }
      destruct (strings.index_nat (get m "DeltaHeadRev") ":") as [i|] eqn:I.
      * destruct (index_nat_split _ _ _ I) as (a & b & E & L). subst i.
        rewrite (UnmarshalDeltaSpec_colon _ _ a b HB E I) in H.
        destruct (base64.DecodeString a); [now apply R in H|].
        now injection H as <-.
      * rewrite (UnmarshalDeltaSpec_no_colon _ _ HB I) in H. now apply R in H.
Qed.

Lemma X4_error_gives_zero_value_witness :
  ParseRepoSpec "R$99999999999999999999"
  = Ret (mkRepoSpec "" 9223372036854775807,
         Some (NumError "Atoi" "99999999999999999999" ErrRange))
  /\ UnmarshalRepoRevSpec {[ "RepoSpec" := "R$99999999999999999999" ]}
     = Ret (RepoRevSpec_zero, Some (NumError "Atoi" "99999999999999999999" ErrRange))
  /\ RepoRevSpec_zero = RepoRevSpec_zero
  /\ DeltaSpec_zero = DeltaSpec_zero.
Proof.
  split; [reflexivity|]. split; [reflexivity|]. split.
  - apply (proj1 (X4_error_gives_zero_value {[ "RepoSpec" := "R$99999999999999999999" ]})
             RepoRevSpec_zero (NumError "Atoi" "99999999999999999999" ErrRange)).
    reflexivity.
  - apply (proj2 (X4_error_gives_zero_value {[ "RepoSpec" := "R$99999999999999999999" ]})
             DeltaSpec_zero (NumError "Atoi" "99999999999999999999" ErrRange)).
    reflexivity.
Defined.

(** X5: a map without the ["RepoSpec"] key is refused by all three
    decoders with the "empty repository spec" error. *)
Theorem X5_missing_RepoSpec_key (m : gmap string string) :
  m !! "RepoSpec" = None ->
  UnmarshalRepoSpec m = Ret (RepoSpec_zero, Some (ErrorsNew "empty repository spec"))
  /\ UnmarshalRepoRevSpec m
     = Ret (RepoRevSpec_zero, Some (ErrorsNew "empty repository spec"))
  /\ UnmarshalDeltaSpec m
     = Ret (DeltaSpec_zero, Some (ErrorsNew "empty repository spec")).
Proof.
  intro H.
  assert (G : get m "RepoSpec" = "") by (unfold get; now rewrite H).
  assert (U : UnmarshalRepoSpec m
              = Ret (RepoSpec_zero, Some (ErrorsNew "empty repository spec")))
    by (unfold UnmarshalRepoSpec; now rewrite G).
  assert (V : UnmarshalRepoRevSpec m
              = Ret (RepoRevSpec_zero, Some (ErrorsNew "empty repository spec")))
    by (unfold UnmarshalRepoRevSpec; now rewrite U).
  split; [exact U|]. split; [exact V|].
  apply (UnmarshalDeltaSpec_base_err _ _ _ V).
Qed.

Lemma X5_missing_RepoSpec_key_witness :
  UnmarshalDeltaSpec {[ "Rev" := "master" ]}
  = Ret (DeltaSpec_zero, Some (ErrorsNew "empty repository spec")).
Proof.
  apply (X5_missing_RepoSpec_key {[ "Rev" := "master" ]}). reflexivity.
Defined.

(** X6: missing revision keys read as the default revision.  When the
    repository token decodes to [repo], a map without ["Rev"] decodes to
    [repo] with empty Rev and CommitID; and a map without
    ["DeltaHeadRev"] decodes to a delta whose head is the base's
    repository with empty Rev and CommitID. *)
Theorem X6_missing_revision_keys (m : gmap string string) :
  (forall repo,
      ParseRepoSpec (get m "RepoSpec") = Ret (repo, None) ->
      m !! "Rev" = None ->
      UnmarshalRepoRevSpec m = Ret (mkRepoRevSpec repo "" "", None))
  /\ (forall base,
         UnmarshalRepoRevSpec m = Ret (base, None) ->
         m !! "DeltaHeadRev" = None ->
         UnmarshalDeltaSpec m
         = Ret (mkDeltaSpec base (mkRepoRevSpec (Repo base) "" ""), None)).
Proof.
  split.
  - intros repo HP H.
    assert (G : get m "Rev" = "") by (unfold get; now rewrite H).
    unfold UnmarshalRepoRevSpec, UnmarshalRepoSpec. rewrite HP, bind_Ret, G.
    reflexivity.
  - intros base HB H.
    assert (G : get m "DeltaHeadRev" = "") by (unfold get; now rewrite H).
    destruct (UnmarshalRepoRevSpec_ok m base HB) as (HP & _).
    rewrite (UnmarshalDeltaSpec_no_colon _ _ HB) by (now rewrite G).
    rewrite G. unfold UnmarshalRepoRevSpec at 1, UnmarshalRepoSpec.
    rewrite get_pair_RepoSpec, HP, bind_Ret, get_pair_Rev. reflexivity.
Qed.

Lemma X6_missing_revision_keys_witness :
  UnmarshalRepoRevSpec {[ "RepoSpec" := "r.com/x" ]}
  = Ret (mkRepoRevSpec (mkRepoSpec "r.com/x" 0) "" "", None)
  /\ UnmarshalDeltaSpec (<[ "Rev" := "v1" ]> {[ "RepoSpec" := "r.com/x" ]})
     = Ret (mkDeltaSpec (mkRepoRevSpec (mkRepoSpec "r.com/x" 0) "v1" "")
                        (mkRepoRevSpec (mkRepoSpec "r.com/x" 0) "" ""), None).
Proof.
  split.
  - apply (proj1 (X6_missing_revision_keys {[ "RepoSpec" := "r.com/x" ]}));
      reflexivity.
  - apply (proj2 (X6_missing_revision_keys
                    (<[ "Rev" := "v1" ]> {[ "RepoSpec" := "r.com/x" ]}))
             (mkRepoRevSpec (mkRepoSpec "r.com/x" 0) "v1" "")); reflexivity.
Defined.

Section delta_decode_facts.

Lemma RevPathComponent_Ret (v : RepoRevSpec) (tok : string) :
  RevPathComponent v = Ret tok -> tok = rev_token v.
Proof.
  unfold RevPathComponent, rev_token, repoRevSpecCommitSep.
  destruct (String.eqb (Rev v) ""), (String.eqb (CommitID v) ""); cbn [andb negb];
    intro H; (discriminate H || now injection H).
Qed.

(** A delta decoded without error: the base and the head were each
    decoded without error, the head from one of two maps. *)
Lemma UnmarshalDeltaSpec_ok (m : gmap string string) (d : DeltaSpec) :
  UnmarshalDeltaSpec m = Ret (d, None) ->
  UnmarshalRepoRevSpec m = Ret (Base d, None)
  /\ ((strings.index_nat (get m "DeltaHeadRev") ":" = None
       /\ UnmarshalRepoRevSpec
            (<[ "Rev" := get m "DeltaHeadRev" ]> {[ "RepoSpec" := get m "RepoSpec" ]})
          = Ret (Head d, None))
      \/ (exists a b pc,
             get m "DeltaHeadRev" = a +:+ ":" +:+ b
             /\ strings.index_nat a ":" = None
             /\ base64.DecodeString a = inl pc
             /\ UnmarshalRepoRevSpec (<[ "Rev" := b ]> {[ "RepoSpec" := pc ]})
                = Ret (Head d, None))).
Proof.
  intro H.
  assert (R : forall base m',
             UnmarshalRepoRevSpec m' ≫= head_result base = Ret (d, None) ->
             base = Base d /\ UnmarshalRepoRevSpec m' = Ret (Head d, None)).
  { intros base m' Hm. destruct (UnmarshalRepoRevSpec_returns m') as [[h [eh|]] Hh];
      rewrite Hh, bind_Ret in Hm; simpl in Hm; [discriminate Hm|].
    injection Hm as <-. now split. }
  destruct (UnmarshalRepoRevSpec_returns m) as [[base [eb|]] HB].
  - rewrite (UnmarshalDeltaSpec_base_err _ _ _ HB) in H. discriminate H.
  - destruct (strings.index_nat (get m "DeltaHeadRev") ":") as [i|] eqn:I.
    + destruct (index_nat_split _ _ _ I) as (a & b & E & L). subst i.
      rewrite (UnmarshalDeltaSpec_colon _ _ a b HB E I) in H.
      destruct (base64.DecodeString a) as [pc|e] eqn:D; [|discriminate H].
      apply R in H as [-> Hh]. split; [exact HB|]. right.
      exists a, b, pc. split; [exact E|]. split; [|now split].
      rewrite E in I. apply (index_nat_before a (":" +:+ b)); [discriminate | exact I].
    + rewrite (UnmarshalDeltaSpec_no_colon _ _ HB I) in H.
      apply R in H as [-> Hh]. split; [exact HB|]. left. now split.
Qed.

(** An accepted base64 string is a whole number of four-byte groups. *)
Lemma decode_quanta_length (s out : string) :
  base64.decode_quanta s = inl out -> exists k, String.length s = (4 * k)%nat.
Proof.
  revert s out. fix IH 1.
  intros [|a [|b [|c [|d rest]]]] out H; try discriminate H.
  - now exists O.
  - cbn [base64.decode_quanta] in H.
    destruct (base64.decodeMap a); [|discriminate H].
    destruct (base64.decodeMap b); [|discriminate H].
    destruct (base64.decodeMap c), (base64.decodeMap d).
    + destruct (base64.decode_quanta rest) as [out'|] eqn:E; [|discriminate H].
      destruct (IH rest out' E) as [k Hk]. exists (S k).
      cbn [String.length]. rewrite Hk. lia.
    + destruct (Ascii.eqb d base64.padChar); [|discriminate H].
      destruct (String.eqb_spec rest ""); [|discriminate H]. subst rest.
      now exists 1%nat.
    + destruct (Ascii.eqb c base64.padChar), (Ascii.eqb d base64.padChar);
        try discriminate H.
      destruct (String.eqb_spec rest ""); [|discriminate H]. subst rest.
      now exists 1%nat.
    + destruct (Ascii.eqb c base64.padChar), (Ascii.eqb d base64.padChar);
        try discriminate H.
      destruct (String.eqb_spec rest ""); [|discriminate H]. subst rest.
      now exists 1%nat.
Qed.

(** The only error of the decoder. *)
Lemma decode_quanta_error (s : string) (e : error) :
  base64.decode_quanta s = inr e -> e = CorruptInputError.
Proof.
  revert s e. fix IH 1.
  intros [|a [|b [|c [|d rest]]]] e H;
    try (cbn [base64.decode_quanta] in H; congruence).
  cbn [base64.decode_quanta] in H.
  destruct (base64.decodeMap a); [|congruence].
  destruct (base64.decodeMap b); [|congruence].
  destruct (base64.decodeMap c), (base64.decodeMap d).
  - destruct (base64.decode_quanta rest) as [out'|e'] eqn:E; [discriminate H|].
    injection H as <-. exact (IH rest e' E).
  - destruct (_ && _); congruence.
  - destruct (_ && _); congruence.
  - destruct (_ && _); congruence.
Qed.

Lemma DecodeString_error (s : string) (e : error) :
  base64.DecodeString s = inr e -> e = CorruptInputError.
Proof. apply decode_quanta_error. Qed.

End delta_decode_facts.

(** X7: a head token without [":"] is read against the base's
    repository.  When [UnmarshalDeltaSpec] returns a delta without error
    and the ["DeltaHeadRev"] route variable contains no [":"], the head
    has the repository of the base, which is the one
    [UnmarshalRepoRevSpec] decodes from the same map. *)
Theorem X7_head_without_colon_shares_repo (m : gmap string string) (d : DeltaSpec) :
  UnmarshalDeltaSpec m = Ret (d, None) ->
  strings.count ":" (get m "DeltaHeadRev") = O ->
  UnmarshalRepoRevSpec m = Ret (Base d, None)
  /\ Repo (Head d) = Repo (Base d).
Proof.
  intros H C. destruct (UnmarshalDeltaSpec_ok m d H) as (HB & [(_ & HH) | X]).
  - split; [exact HB|].
    destruct (UnmarshalRepoRevSpec_ok _ _ HB) as (PB & _).
    destruct (UnmarshalRepoRevSpec_ok _ _ HH) as (PH & _).
    rewrite get_pair_RepoSpec, PB in PH. now injection PH.
  - destruct X as (a & b & pc & E & _).
    rewrite E, !count_app in C. cbn [strings.count Ascii.eqb] in C.
    simpl in C. lia.
Qed.

Lemma X7_head_without_colon_shares_repo_witness :
  let m : gmap string string :=
    <[ "DeltaHeadRev" := "v2" ]> (<[ "Rev" := "v1" ]> {[ "RepoSpec" := "r.com/x" ]}) in
  UnmarshalRepoRevSpec m
  = Ret (mkRepoRevSpec (mkRepoSpec "r.com/x" 0) "v1" "", None)
  /\ Repo (mkRepoRevSpec (mkRepoSpec "r.com/x" 0) "v2" "") = mkRepoSpec "r.com/x" 0.
Proof.
  cbv zeta.
  apply (X7_head_without_colon_shares_repo
           (<[ "DeltaHeadRev" := "v2" ]> (<[ "Rev" := "v1" ]> {[ "RepoSpec" := "r.com/x" ]}))
           (mkDeltaSpec (mkRepoRevSpec (mkRepoSpec "r.com/x" 0) "v1" "")
                        (mkRepoRevSpec (mkRepoSpec "r.com/x" 0) "v2" "")));
    reflexivity.
Defined.

(** X8: both ends of a delta decoded without error keep the invariant
    of revision identifiers, so [RevPathComponent] panics on neither. *)
Theorem X8_decoded_delta_invariant (m : gmap string string) (d : DeltaSpec) :
  UnmarshalDeltaSpec m = Ret (d, None) ->
  (Rev (Base d) <> "" \/ CommitID (Base d) = "")
  /\ (Rev (Head d) <> "" \/ CommitID (Head d) = "")
  /\ RevPathComponent (Base d) = Ret (rev_token (Base d))
  /\ RevPathComponent (Head d) = Ret (rev_token (Head d)).
Proof.
  intro H. destruct (UnmarshalDeltaSpec_ok m d H) as (HB & X).
  assert (HH : exists m', UnmarshalRepoRevSpec m' = Ret (Head d, None)).
  { destruct X as [(_ & HH) | (a & b & pc & _ & _ & _ & HH)]; eauto. }
  destruct HH as (m' & HH).
  assert (V : forall m0 v, UnmarshalRepoRevSpec m0 = Ret (v, None) ->
                (Rev v <> "" \/ CommitID v = "")
                /\ RevPathComponent v = Ret (rev_token v)).
  { intros m0 v Hv. destruct (UnmarshalRepoRevSpec_ok m0 v Hv) as (_ & Inv & _).
    split; [exact Inv|]. apply RevPathComponent_valid.
    destruct Inv as [Hr| ->]; [|reflexivity].
    destruct (String.eqb_spec (Rev v) ""); [contradiction|]. apply orb_true_r. }
  destruct (V _ _ HB) as [IB TB]. destruct (V _ _ HH) as [IH TH]. auto.
Qed.

Lemma X8_decoded_delta_invariant_witness :
  let d := mkDeltaSpec (mkRepoRevSpec (mkRepoSpec "r.com/x" 0) "v1" "")
                       (mkRepoRevSpec (mkRepoSpec "r.com/y" 0) "v2" "abc") in
  RevPathComponent (Base d) = Ret "v1" /\ RevPathComponent (Head d) = Ret "v2===abc".
Proof.
  cbv zeta.
  destruct (X8_decoded_delta_invariant
              (<[ "DeltaHeadRev" := "ci5jb20veQ==:v2===abc" ]>
                 (<[ "Rev" := "v1" ]> {[ "RepoSpec" := "r.com/x" ]}))
              (mkDeltaSpec (mkRepoRevSpec (mkRepoSpec "r.com/x" 0) "v1" "")
                           (mkRepoRevSpec (mkRepoSpec "r.com/y" 0) "v2" "abc")))
    as (_ & _ & TB & TH); [reflexivity|].
  split; [exact TB | exact TH].
Defined.

(** X9: a malformed cross-repository head token is an error, not a
    panic.  When the base decodes without error and the part of
    ["DeltaHeadRev"] before its first [":"] has no line breaks and a
    length that is not a multiple of four, [UnmarshalDeltaSpec] returns
    the zero value and [CorruptInputError]; when ["DeltaHeadRev"] starts
    with [":"], it returns the zero value and the "empty repository
    spec" error. *)
Theorem X9_malformed_head_token (m : gmap string string) (base : RepoRevSpec) :
  UnmarshalRepoRevSpec m = Ret (base, None) ->
  (forall a b,
      get m "DeltaHeadRev" = a +:+ ":" +:+ b ->
      strings.count ":" a = O ->
      base64.strip_newlines a = a ->
      (String.length a mod 4 <> 0)%nat ->
      UnmarshalDeltaSpec m = Ret (DeltaSpec_zero, Some CorruptInputError))
  /\ (forall b,
         get m "DeltaHeadRev" = ":" +:+ b ->
         UnmarshalDeltaSpec m
         = Ret (DeltaSpec_zero, Some (ErrorsNew "empty repository spec"))).
Proof.
  intro HB. split.
  - intros a b E C Hn Hl.
    assert (I : strings.index_nat (get m "DeltaHeadRev") ":" = Some (String.length a))
      by (rewrite E; now apply (index_nat_byte_app ":" a b)).
    rewrite (UnmarshalDeltaSpec_colon _ _ a b HB E I).
    destruct (base64.DecodeString a) as [pc|e] eqn:D.
    + exfalso. unfold base64.DecodeString in D. rewrite Hn in D.
      destruct (decode_quanta_length _ _ D) as [k Hk]. apply Hl.
      rewrite Hk, Nat.mul_comm. apply Nat.Div0.mod_mul.
    + now rewrite (DecodeString_error _ _ D).
  - intros b E.
    assert (I : strings.index_nat (get m "DeltaHeadRev") ":" = Some (String.length ""))
      by (rewrite E; now destruct b).
    now rewrite (UnmarshalDeltaSpec_colon _ _ "" b HB E I).
Qed.

Lemma X9_malformed_head_token_witness :
  UnmarshalDeltaSpec
    (<[ "DeltaHeadRev" := "abc:v2" ]> (<[ "Rev" := "v1" ]> {[ "RepoSpec" := "r.com/x" ]}))
  = Ret (DeltaSpec_zero, Some CorruptInputError)
  /\ UnmarshalDeltaSpec
       (<[ "DeltaHeadRev" := ":v2" ]> (<[ "Rev" := "v1" ]> {[ "RepoSpec" := "r.com/x" ]}))
     = Ret (DeltaSpec_zero, Some (ErrorsNew "empty repository spec")).
Proof.
  assert (H1 : UnmarshalRepoRevSpec
                 (<[ "DeltaHeadRev" := "abc:v2" ]>
                    (<[ "Rev" := "v1" ]> {[ "RepoSpec" := "r.com/x" ]}))
               = Ret (mkRepoRevSpec (mkRepoSpec "r.com/x" 0) "v1" "", None))
    by (vm_compute; reflexivity).
  assert (H2 : UnmarshalRepoRevSpec
                 (<[ "DeltaHeadRev" := ":v2" ]>
                    (<[ "Rev" := "v1" ]> {[ "RepoSpec" := "r.com/x" ]}))
               = Ret (mkRepoRevSpec (mkRepoSpec "r.com/x" 0) "v1" "", None))
    by (vm_compute; reflexivity).
  pose proof (proj1 (X9_malformed_head_token _ _ H1) "abc" "v2") as P1.
  pose proof (proj2 (X9_malformed_head_token _ _ H2) "v2") as P2.
  split.
  - apply P1; [reflexivity | reflexivity | reflexivity | discriminate].
  - apply P2. reflexivity.
Defined.

(** X10: the keys of the route maps.  Whenever the encoders return,
    [RepoSpec.RouteVars] has the key ["RepoSpec"] only,
    [RepoRevSpec.RouteVars] adds ["Rev"], and [DeltaSpec.RouteVars] adds
    ["DeltaHeadRev"] to the route map of its base: without that key it
    is the base's map, and [UnmarshalRepoRevSpec] reads the base from
    either. *)
Theorem X10_route_map_keys :
  (forall x m, RepoSpec_RouteVars x = Ret m -> dom m = {[ "RepoSpec" ]})
  /\ (forall v m,
         RepoRevSpec_RouteVars v = Ret m ->
         dom m = {[ "RepoSpec"; "Rev" ]}
         /\ RepoSpec_RouteVars (Repo v) = Ret (delete "Rev" m))
  /\ (forall d m,
         DeltaSpec_RouteVars d = Ret m ->
         dom m = {[ "RepoSpec"; "Rev"; "DeltaHeadRev" ]}
         /\ RepoRevSpec_RouteVars (Base d) = Ret (delete "DeltaHeadRev" m)
         /\ UnmarshalRepoRevSpec m = UnmarshalRepoRevSpec (delete "DeltaHeadRev" m)).
Proof.
  split; [|split].
  - intros x m. unfold RepoSpec_RouteVars.
    destruct (PathComponent x) as [pc|]; [|discriminate].
    rewrite bind_Ret. intros [= <-]. apply dom_singleton_L.
  - intros v m H. apply RepoRevSpec_RouteVars_inv in H as (pc & tok & Hpc & Htok & ->).
    split.
    + rewrite dom_insert_L, dom_singleton_L. set_solver.
    + unfold RepoSpec_RouteVars. rewrite Hpc, bind_Ret.
      rewrite delete_insert_id; [reflexivity|]. now rewrite lookup_singleton_ne.
  - intros d m H.
    apply DeltaSpec_RouteVars_inv in H
      as (pcB & tokB & pcH & tokH & HpcB & HtokB & _ & _ & ->).
    assert (D : delete "DeltaHeadRev"
                  (<[ "DeltaHeadRev" := head_token d pcH tokH ]>
                     (<[ "Rev" := tokB ]> ({[ "RepoSpec" := pcB ]} : gmap string string)))
                = <[ "Rev" := tokB ]> {[ "RepoSpec" := pcB ]}).
    { apply delete_insert_id.
      rewrite lookup_insert_ne by discriminate. now rewrite lookup_singleton_ne. }
    rewrite D. split; [|split].
    + rewrite !dom_insert_L, dom_singleton_L. set_solver.
    + apply RepoRevSpec_RouteVars_inv. eauto.
    + apply UnmarshalRepoRevSpec_ext; now rewrite get_insert_ne by discriminate.
Qed.

Lemma X10_route_map_keys_witness :
  dom (<[ "Rev" := "v1" ]> ({[ "RepoSpec" := "r.com/x" ]} : gmap string string))
  = {[ "RepoSpec"; "Rev" ]}
  /\ RepoSpec_RouteVars (mkRepoSpec "r.com/x" 0)
     = Ret (delete "Rev" (<[ "Rev" := "v1" ]> {[ "RepoSpec" := "r.com/x" ]})).
Proof.
  apply (proj1 (proj2 X10_route_map_keys)
           (mkRepoRevSpec (mkRepoSpec "r.com/x" 0) "v1" "")).
  reflexivity.
Defined.

(** X11: encoding a delta panics exactly when encoding its base or its
    head alone does: [DeltaSpec.RouteVars] returns iff
    [RepoRevSpec.RouteVars] returns on both. *)
Theorem X11_delta_encoding_returns (d : DeltaSpec) :
  (exists m, DeltaSpec_RouteVars d = Ret m)
  <-> (exists mb, RepoRevSpec_RouteVars (Base d) = Ret mb)
      /\ (exists mh, RepoRevSpec_RouteVars (Head d) = Ret mh).
Proof.
  split.
  - intros (m & H).
    apply DeltaSpec_RouteVars_inv in H
      as (pcB & tokB & pcH & tokH & HpcB & HtokB & HpcH & HtokH & _).
    split; eexists; apply RepoRevSpec_RouteVars_inv; eauto.
  - intros [(mb & HB) (mh & HH)].
    apply RepoRevSpec_RouteVars_inv in HB as (pcB & tokB & HpcB & HtokB & _).
    apply RepoRevSpec_RouteVars_inv in HH as (pcH & tokH & HpcH & HtokH & _).
    eexists. apply DeltaSpec_RouteVars_inv.
    exists pcB, tokB, pcH, tokH. auto.
Qed.

(** X12: the numeric ID takes precedence.  For every RepoSpec with
    [0 < RID] (within [int]), whatever its URI, [PathComponent] returns
    ["R$"] followed by the decimal RID, and decoding that token gives the
    RepoSpec with the same RID and an empty URI, with no error. *)
Theorem X12_numeric_id_precedence (x : RepoSpec) :
  0 < RID x < 2 ^ 63 ->
  PathComponent x = Ret ("R$" +:+ strconv.Itoa (RID x))
  /\ RepoSpec_roundtrip x = Ret (mkRepoSpec "" (RID x), None).
Proof.
  intros [Hpos Hmax]. unfold RepoSpec_roundtrip, PathComponent.
  destruct (Z.ltb_spec 0 (RID x)); [|lia]. split; [reflexivity|].
  rewrite bind_Ret, ParseRepoSpec_numeric, Atoi_Itoa; [reflexivity|].
  unfold strconv.is_int. lia.
Qed.

Lemma X12_numeric_id_precedence_witness :
  PathComponent (mkRepoSpec "github.com/a/b" 42) = Ret "R$42"
  /\ RepoSpec_roundtrip (mkRepoSpec "github.com/a/b" 42) = Ret (mkRepoSpec "" 42, None).
Proof.
  apply (X12_numeric_id_precedence (mkRepoSpec "github.com/a/b" 42)).
  simpl. lia.
Defined.

(** X13: the route map of a RepoSpec decodes to it.  For every RepoSpec
    [x] as in C1 amended, [UnmarshalRepoSpec(x.RouteVars())] returns [x]
    and no error, also when the map holds further keys. *)
Theorem X13_UnmarshalRepoSpec_RouteVars (x : RepoSpec) (k v : string) :
  plain_RepoSpec x = true ->
  k <> "RepoSpec" ->
  (m ← RepoSpec_RouteVars x; UnmarshalRepoSpec m) = Ret (x, None)
  /\ (m ← RepoSpec_RouteVars x; UnmarshalRepoSpec (<[ k := v ]> m)) = Ret (x, None).
Proof.
  intros HP Hk. pose proof (plain_RepoSpec_roundtrip x HP) as RT.
  unfold RepoSpec_roundtrip in RT. unfold RepoSpec_RouteVars, UnmarshalRepoSpec.
  destruct (PathComponent x) as [pc|]; [|discriminate RT].
  rewrite bind_Ret in RT. rewrite !bind_Ret.
  rewrite get_insert_ne by exact Hk. rewrite get_singleton_eq. now split.
Qed.

Lemma X13_UnmarshalRepoSpec_RouteVars_witness :
  (m ← RepoSpec_RouteVars (mkRepoSpec "src:///a.b/x" 0); UnmarshalRepoSpec m)
  = Ret (mkRepoSpec "src:///a.b/x" 0, None)
  /\ (m ← RepoSpec_RouteVars (mkRepoSpec "src:///a.b/x" 0);
      UnmarshalRepoSpec (<[ "Rev" := "v1" ]> m))
     = Ret (mkRepoSpec "src:///a.b/x" 0, None).
Proof.
  apply (X13_UnmarshalRepoSpec_RouteVars (mkRepoSpec "src:///a.b/x" 0) "Rev" "v1");
    [reflexivity | discriminate].
Defined.

Section shape_facts.

Lemma Atoi_ok_range (s : string) (z : Z) :
  strconv.Atoi s = (z, None) -> strconv.is_int z.
Proof.
  intro H. pose proof (Atoi_decimal s) as A.
  destruct (strconv.decimal_int s) as [z'|] eqn:D.
  - rewrite A in H. injection H as <-.
    unfold strconv.decimal_int in D.
    destruct (strconv.signed_value s) as [v|]; [|discriminate D].
    destruct ((- 2 ^ 63 <=? v) && (v <? 2 ^ 63)) eqn:R; [|discriminate D].
    injection D as <-. apply andb_true_iff in R as [R1 R2].
    apply Z.leb_le in R1. apply Z.ltb_lt in R2. unfold strconv.is_int. lia.
  - destruct A as (w & e & A). rewrite A in H. discriminate H.
Qed.

End shape_facts.

(** X14: the shape of a decoded RepoSpec.  When [ParseRepoSpec] returns
    [x] without error, either the token started with ["R$"] and [x] is a
    numeric-ID identifier (empty URI, RID within [int]), or [x] is a URI
    identifier: RID 0 and a non-empty URI that starts neither with
    ["R$"] nor with ["sourcegraph/"].  It never has both fields set. *)
Theorem X14_ParseRepoSpec_shape (pc : string) (x : RepoSpec) :
  ParseRepoSpec pc = Ret (x, None) ->
  (strings.HasPrefix pc "R$" = true /\ URI x = "" /\ strconv.is_int (RID x))
  \/ (strings.HasPrefix pc "R$" = false
      /\ RID x = 0 /\ URI x <> ""
      /\ strings.HasPrefix (URI x) "R$" = false
      /\ strings.HasPrefix (URI x) "sourcegraph/" = false).
Proof.
  unfold ParseRepoSpec.
  destruct (String.eqb_spec pc "") as [->|Hne]; [discriminate|].
  destruct (strings.HasPrefix pc "R$") eqn:P.
  - pose proof P as P'. apply prefix_inv in P' as [t ->].
    change 2 with (strings.len "R$"). rewrite slice_from_app, bind_Ret.
    destruct (strconv.Atoi t) as [rid err] eqn:A.
    intros [= <- ->]. left. cbn [URI RID]. split; [reflexivity|].
    split; [reflexivity|]. now apply (Atoi_ok_range t).
  - destruct (strings.HasPrefix pc "sourcegraph/") eqn:S; intros [= <-]; right;
      cbn [URI RID]; (split; [reflexivity|]); (split; [reflexivity|]).
    + apply prefix_inv in S as [t ->]. repeat split; try reflexivity. discriminate.
    + auto.
Qed.

Lemma X14_ParseRepoSpec_shape_witness :
  (strings.HasPrefix "sourcegraph/x" "R$" = true
   /\ URI (mkRepoSpec "sourcegraph.com/sourcegraph/x" 0) = ""
   /\ strconv.is_int (RID (mkRepoSpec "sourcegraph.com/sourcegraph/x" 0)))
  \/ (strings.HasPrefix "sourcegraph/x" "R$" = false
      /\ RID (mkRepoSpec "sourcegraph.com/sourcegraph/x" 0) = 0
      /\ URI (mkRepoSpec "sourcegraph.com/sourcegraph/x" 0) <> ""
      /\ strings.HasPrefix (URI (mkRepoSpec "sourcegraph.com/sourcegraph/x" 0)) "R$"
         = false
      /\ strings.HasPrefix (URI (mkRepoSpec "sourcegraph.com/sourcegraph/x" 0))
           "sourcegraph/" = false).
Proof.
  apply (X14_ParseRepoSpec_shape "sourcegraph/x"
           (mkRepoSpec "sourcegraph.com/sourcegraph/x" 0)).
  reflexivity.
Defined.

(** X15: when [PathComponent] panics.  It returns whenever [0 < RID];
    with [RID <= 0] it panics exactly when the URI is a proper prefix of
    ["sourcegraph.com/"], the empty URI included (there with the "empty
    RepoSpec" message, otherwise by slicing the URI beyond its end). *)
Theorem X15_PathComponent_panics (x : RepoSpec) :
  panics (PathComponent x)
  <-> RID x <= 0
      /\ strings.HasPrefix "sourcegraph.com/" (URI x) = true
      /\ URI x <> "sourcegraph.com/".
Proof.
  unfold PathComponent.
  destruct (Z.ltb_spec 0 (RID x)) as [Hpos|Hnp].
  - simpl. split; [contradiction | lia].
  - destruct (String.eqb_spec (URI x) "") as [E|E]; cbn [negb].
    + rewrite E. simpl. split; [|auto]. intros _.
      split; [exact Hnp|]. split; [reflexivity | discriminate].
    + destruct (strings.HasPrefix "sourcegraph.com/" (URI x)) eqn:P.
      * pose proof P as P'. apply prefix_inv in P' as [t Ht].
        assert (L : (String.length (URI x) + String.length t = 16)%nat)
          by (rewrite <- length_append, <- Ht; reflexivity).
        unfold strings.slice_from, strings.slice, strings.len.
        change (Z.of_nat (String.length "sourcegraph.com/")) with 16.
        destruct t as [|c t].
        -- rewrite append_nil_r in Ht. simpl in L.
           replace ((0 <=? 16) && (16 <=? Z.of_nat (String.length (URI x)))
                    && (Z.of_nat (String.length (URI x))
                        <=? Z.of_nat (String.length (URI x)))) with true
             by (symmetry; rewrite !andb_true_iff, !Z.leb_le; lia).
           simpl. split; [contradiction|]. intros (_ & _ & N). now rewrite <- Ht in N.
        -- simpl in L.
           replace ((0 <=? 16) && (16 <=? Z.of_nat (String.length (URI x)))
                    && (Z.of_nat (String.length (URI x))
                        <=? Z.of_nat (String.length (URI x)))) with false
             by (symmetry; rewrite !andb_false_iff, !Z.leb_gt; lia).
           simpl. split; [|auto]. intros _. split; [exact Hnp|].
           split; [reflexivity|]. intro N. rewrite N in Ht.
           apply (f_equal String.length) in Ht. rewrite length_append in Ht.
           simpl in Ht. lia.
      * simpl. split; [contradiction|]. intros (_ & N & _). discriminate N.
Qed.

Section delta_roundtrip_facts.

(** Decoding the map of an encoded delta is decoding the base's tokens
    and then the head's, whenever the head token is split where it was
    joined. *)
Lemma UnmarshalDeltaSpec_encoded (d : DeltaSpec) (pcB tokB pcH tokH : string) :
  PathComponent (Repo (Base d)) = Ret pcB ->
  PathComponent (Repo (Head d)) = Ret pcH ->
  RevPathComponent (Head d) = Ret tokH ->
  Repo (Base d) <> Repo (Head d) \/ strings.count ":" (rev_token (Head d)) = O ->
  UnmarshalDeltaSpec
    (<[ "DeltaHeadRev" := head_token d pcH tokH ]>
       (<[ "Rev" := tokB ]> {[ "RepoSpec" := pcB ]}))
  = r ← UnmarshalRepoRevSpec (<[ "Rev" := tokB ]> {[ "RepoSpec" := pcB ]});
    match r with
    | (_, Some e) => Ret (DeltaSpec_zero, Some e)
    | (base, None) =>
        UnmarshalRepoRevSpec (<[ "Rev" := tokH ]> {[ "RepoSpec" := pcH ]})
        ≫= head_result base
    end.
Proof.
  intros HpcB HpcH HtokH Hyp.
  set (m := <[ "DeltaHeadRev" := head_token d pcH tokH ]>
              (<[ "Rev" := tokB ]> ({[ "RepoSpec" := pcB ]} : gmap string string))).
  assert (GR : get m "RepoSpec" = pcB).
  { unfold m. rewrite !get_insert_ne by discriminate. apply get_singleton_eq. }
  assert (GD : get m "DeltaHeadRev" = head_token d pcH tokH)
    by (unfold m; apply get_insert_eq).
  assert (EB : UnmarshalRepoRevSpec m
               = UnmarshalRepoRevSpec (<[ "Rev" := tokB ]> {[ "RepoSpec" := pcB ]})).
  { apply UnmarshalRepoRevSpec_ext; unfold m; now rewrite get_insert_ne by discriminate. }
  rewrite <- EB.
  destruct (UnmarshalRepoRevSpec_returns m) as [[base [e|]] HB]; rewrite HB, bind_Ret.
  - apply (UnmarshalDeltaSpec_base_err _ _ _ HB).
  - unfold head_token in GD.
    destruct (bool_decide (Repo (Base d) = Repo (Head d))) eqn:D.
    + apply bool_decide_eq_true_1 in D.
      destruct Hyp as [Hyp|Hyp]; [contradiction|].
      rewrite <- (RevPathComponent_Ret _ _ HtokH) in Hyp.
      rewrite D, HpcH in HpcB. injection HpcB as <-.
      rewrite (UnmarshalDeltaSpec_no_colon _ _ HB)
        by (rewrite GD; now apply index_nat_byte_none).
      now rewrite GD, GR.
    + assert (I : strings.index_nat (get m "DeltaHeadRev") ":"
                  = Some (String.length (base64.EncodeToString pcH)))
        by (rewrite GD; apply (index_nat_byte_app ":" _ tokH),
              EncodeToString_no_colon).
      rewrite (UnmarshalDeltaSpec_colon _ _ _ tokH HB GD I).
      now rewrite DecodeString_EncodeToString.
Qed.

Lemma RepoRevSpec_roundtrip_inv (v : RepoRevSpec) (r : RepoRevSpec * option error) :
  RepoRevSpec_roundtrip v = Ret r <->
  exists pc tok,
    PathComponent (Repo v) = Ret pc /\ RevPathComponent v = Ret tok
    /\ UnmarshalRepoRevSpec (<[ "Rev" := tok ]> {[ "RepoSpec" := pc ]}) = Ret r.
Proof.
  unfold RepoRevSpec_roundtrip. split.
  - destruct (RepoRevSpec_RouteVars v) as [m|] eqn:E; [|discriminate].
    rewrite bind_Ret. intro H.
    apply RepoRevSpec_RouteVars_inv in E as (pc & tok & Hpc & Htok & ->). eauto.
  - intros (pc & tok & Hpc & Htok & H).
    rewrite (proj2 (RepoRevSpec_RouteVars_inv v _)) by eauto.
    now rewrite bind_Ret.
Qed.

End delta_roundtrip_facts.

(** X16: the round trip of a delta is the round trip of its two ends.
    For every DeltaSpec whose Base and Head have different RepoSpec
    fields, or whose head revision token contains no [":"],
    [UnmarshalDeltaSpec(d.RouteVars())] returns [d] without error exactly
    when [UnmarshalRepoRevSpec(v.RouteVars())] returns [v] without error
    for both [v = d.Base] and [v = d.Head]. *)
Theorem X16_delta_roundtrip_by_ends (d : DeltaSpec) :
  Repo (Base d) <> Repo (Head d) \/ strings.count ":" (rev_token (Head d)) = O ->
  DeltaSpec_roundtrip d = Ret (d, None)
  <-> RepoRevSpec_roundtrip (Base d) = Ret (Base d, None)
      /\ RepoRevSpec_roundtrip (Head d) = Ret (Head d, None).
Proof.
  intro Hyp. split.
  - unfold DeltaSpec_roundtrip.
    destruct (DeltaSpec_RouteVars d) as [m|] eqn:E; [|discriminate].
    rewrite bind_Ret. intro H.
    apply DeltaSpec_RouteVars_inv in E
      as (pcB & tokB & pcH & tokH & HpcB & HtokB & HpcH & HtokH & ->).
    rewrite (UnmarshalDeltaSpec_encoded d pcB tokB pcH tokH) in H by assumption.
    destruct (UnmarshalRepoRevSpec_returns (<[ "Rev" := tokB ]> {[ "RepoSpec" := pcB ]}))
      as [[base [e|]] HB]; rewrite HB, bind_Ret in H; [discriminate H|].
    destruct (UnmarshalRepoRevSpec_returns (<[ "Rev" := tokH ]> {[ "RepoSpec" := pcH ]}))
      as [[head [e|]] HH]; rewrite HH, bind_Ret in H; simpl in H; [discriminate H|].
    injection H as <-. cbn [Base Head] in *.
    split; apply RepoRevSpec_roundtrip_inv; eauto.
  - intros [HB HH].
    apply RepoRevSpec_roundtrip_inv in HB as (pcB & tokB & HpcB & HtokB & HB).
    apply RepoRevSpec_roundtrip_inv in HH as (pcH & tokH & HpcH & HtokH & HH).
    unfold DeltaSpec_roundtrip.
    rewrite (proj2 (DeltaSpec_RouteVars_inv d _))
      by (exists pcB, tokB, pcH, tokH; auto).
    rewrite bind_Ret, (UnmarshalDeltaSpec_encoded d pcB tokB pcH tokH) by assumption.
    rewrite HB, bind_Ret, HH, bind_Ret. now destruct d.
Qed.

Lemma X16_delta_roundtrip_by_ends_witness :
  let d := mkDeltaSpec (mkRepoRevSpec (mkRepoSpec "r.com/x" 0) "v1" "")
                       (mkRepoRevSpec (mkRepoSpec "r.com/y" 0) "a:b" "") in
  DeltaSpec_roundtrip d = Ret (d, None).
Proof.
  cbv zeta.
  apply (X16_delta_roundtrip_by_ends
           (mkDeltaSpec (mkRepoRevSpec (mkRepoSpec "r.com/x" 0) "v1" "")
                        (mkRepoRevSpec (mkRepoSpec "r.com/y" 0) "a:b" ""))).
  - left. discriminate.
  - split; reflexivity.
Defined.

(** ** The diffstat of a delta's files *)

Section diffstat_facts.

Variable w : positive.
Variable FileDiff : Type.
Variable FileDiff_Stat : FileDiff -> outcome diff.Stat.

Lemma wrap_add_l (a b : Z) : diff.wrap w (diff.wrap w a + b) = diff.wrap w (a + b).
Proof.
  unfold diff.wrap.
  replace ((a + 2 ^ (Z.pos w - 1)) mod 2 ^ Z.pos w - 2 ^ (Z.pos w - 1) + b
           + 2 ^ (Z.pos w - 1))
    with ((a + 2 ^ (Z.pos w - 1)) mod 2 ^ Z.pos w + b) by lia.
  rewrite Z.add_mod_idemp_l by (apply Z.pow_nonzero; lia).
  do 2 f_equal. lia.
Qed.

Lemma wrap_small (z : Z) :
  - 2 ^ (Z.pos w - 1) <= z < 2 ^ (Z.pos w - 1) -> diff.wrap w z = z.
Proof.
  intro H. unfold diff.wrap.
  assert (E : 2 ^ Z.pos w = 2 * 2 ^ (Z.pos w - 1)).
  { replace (Z.pos w) with (Z.succ (Z.pos w - 1)) at 1 by lia.
    apply Z.pow_succ_r. lia. }
  rewrite Z.mod_small by lia. lia.
Qed.

Lemma wrap_0 : diff.wrap w 0 = 0.
Proof. apply wrap_small. pose proof (Z.pow_pos_nonneg 2 (Z.pos w - 1)). lia. Qed.

(** The loop adds, to each counter of [ds], the total of that counter. *)
Lemma DiffStat_loop_total (fds : list FileDiff) (ds : diff.Stat) :
  DiffStat_loop w FileDiff_Stat fds ds =
  sts ← all_stats FileDiff_Stat fds;
  Ret (match sts with
       | [] => ds
       | _ => diff.mkStat (diff.wrap w (diff.Added ds + total diff.Added sts))
                          (diff.wrap w (diff.Changed ds + total diff.Changed sts))
                          (diff.wrap w (diff.Deleted ds + total diff.Deleted sts))
       end).
Proof.
  revert ds. induction fds as [|fd fds IH]; intro ds; [reflexivity|].
  cbn [DiffStat_loop all_stats].
  destruct (FileDiff_Stat fd) as [st|msg]; [|reflexivity].
  rewrite !bind_Ret, IH.
  destruct (all_stats FileDiff_Stat fds) as [sts|msg]; [|reflexivity].
  rewrite !bind_Ret. f_equal.
  destruct sts as [|st' sts].
  - unfold diff.accumulate, total. simpl. now rewrite !Z.add_0_r.
  - unfold diff.accumulate. cbn [diff.Added diff.Changed diff.Deleted].
    rewrite !wrap_add_l. unfold total. cbn [foldr].
    f_equal; f_equal; lia.
Qed.

Lemma DiffStat_total (fds : list FileDiff) :
  DiffStat w FileDiff_Stat (Some (mkDeltaFiles fds)) =
  sts ← all_stats FileDiff_Stat fds;
  Ret (diff.mkStat (diff.wrap w (total diff.Added sts))
                   (diff.wrap w (total diff.Changed sts))
                   (diff.wrap w (total diff.Deleted sts))).
Proof.
  unfold DiffStat. cbn [FileDiffs]. rewrite DiffStat_loop_total.
  destruct (all_stats FileDiff_Stat fds) as [[|st sts]|msg]; try reflexivity.
  rewrite !bind_Ret. unfold total at 1 2 3. simpl. now rewrite wrap_0.
Qed.

Lemma all_stats_app (l1 l2 : list FileDiff) :
  all_stats FileDiff_Stat (l1 ++ l2) =
  s1 ← all_stats FileDiff_Stat l1; s2 ← all_stats FileDiff_Stat l2; Ret (s1 ++ s2).
Proof.
  induction l1 as [|fd l1 IH]; cbn [app all_stats].
  - rewrite bind_Ret. now destruct (all_stats FileDiff_Stat l2).
  - destruct (FileDiff_Stat fd); [|reflexivity]. rewrite !bind_Ret, IH.
    destruct (all_stats FileDiff_Stat l1); [|reflexivity]. rewrite !bind_Ret.
    now destruct (all_stats FileDiff_Stat l2).
Qed.

Lemma total_app (field : diff.Stat -> Z) (s1 s2 : list diff.Stat) :
  total field (s1 ++ s2) = total field s1 + total field s2.
Proof. unfold total. induction s1 as [|st s1 IH]; simpl; lia. Qed.

Lemma total_perm (field : diff.Stat -> Z) (s1 s2 : list diff.Stat) :
  s1 ≡ₚ s2 -> total field s1 = total field s2.
Proof. unfold total. induction 1; simpl; lia. Qed.

Lemma all_stats_perm (l l' : list FileDiff) :
  l ≡ₚ l' ->
  forall sts, all_stats FileDiff_Stat l = Ret sts ->
  exists sts', all_stats FileDiff_Stat l' = Ret sts' /\ sts ≡ₚ sts'.
Proof.
  induction 1 as [|x l l' _ IH|x y l|l l' l'' _ IH1 _ IH2]; intros sts H.
  - exists sts. now split.
  - cbn [all_stats] in H |- *.
    destruct (FileDiff_Stat x) as [st|]; [|discriminate H]. rewrite bind_Ret in H.
    destruct (all_stats FileDiff_Stat l) as [s0|]; [|discriminate H].
    rewrite bind_Ret in H. injection H as <-.
    destruct (IH s0 eq_refl) as (s0' & -> & P).
    exists (st :: s0'). split; [reflexivity | now constructor].
  - cbn [all_stats] in H |- *.
    destruct (FileDiff_Stat y) as [sy|]; [|discriminate H]. rewrite bind_Ret in H.
    destruct (FileDiff_Stat x) as [sx|]; [|discriminate H]. rewrite bind_Ret in H.
    destruct (all_stats FileDiff_Stat l) as [s0|]; [|discriminate H].
    rewrite !bind_Ret in H. injection H as <-.
    exists (sx :: sy :: s0). split; [reflexivity | constructor].
  - destruct (IH1 sts H) as (s1 & H1 & P1).
    destruct (IH2 s1 H1) as (s2 & H2 & P2).
    exists s2. split; [exact H2 | now transitivity s1].
Qed.

End diffstat_facts.

(** X17: what [DiffStat] computes.  On a nil receiver it panics.
    Otherwise it calls [Stat] on each file diff in order and panics with
    the first of them that does; when all return, each counter of the
    result is the sum of that counter over all file diffs, wrapped to
    the counter's width, and so the exact sum when that fits the
    width. *)
Theorem X17_DiffStat_totals (w : positive) (FileDiff : Type)
        (FileDiff_Stat : FileDiff -> outcome diff.Stat) (fds : list FileDiff) :
  DiffStat w FileDiff_Stat None
  = Panic "invalid memory address or nil pointer dereference"
  /\ DiffStat w FileDiff_Stat (Some (mkDeltaFiles fds))
     = (sts ← all_stats FileDiff_Stat fds;
        Ret (diff.mkStat (diff.wrap w (total diff.Added sts))
                         (diff.wrap w (total diff.Changed sts))
                         (diff.wrap w (total diff.Deleted sts))))
  /\ (forall sts,
         all_stats FileDiff_Stat fds = Ret sts ->
         (forall field, In field [diff.Added; diff.Changed; diff.Deleted] ->
                        - 2 ^ (Z.pos w - 1) <= total field sts < 2 ^ (Z.pos w - 1)) ->
         DiffStat w FileDiff_Stat (Some (mkDeltaFiles fds))
         = Ret (diff.mkStat (total diff.Added sts) (total diff.Changed sts)
                            (total diff.Deleted sts))).
Proof.
  split; [reflexivity|]. split; [apply DiffStat_total|].
  intros sts H R. rewrite DiffStat_total, H, bind_Ret.
  rewrite !wrap_small by (apply R; simpl; auto). reflexivity.
Qed.

Lemma X17_DiffStat_totals_witness :
  DiffStat 32 (fun st : diff.Stat => Ret st)
    (Some (mkDeltaFiles [diff.mkStat 1 2 3; diff.mkStat 10 20 30]))
  = Ret (diff.mkStat 11 22 33).
Proof.
  apply (proj2 (proj2 (X17_DiffStat_totals 32 diff.Stat (fun st => Ret st)
                         [diff.mkStat 1 2 3; diff.mkStat 10 20 30]))
           [diff.mkStat 1 2 3; diff.mkStat 10 20 30]).
  - reflexivity.
  - intros field [<- | [<- | [<- | []]]]; vm_compute; split; congruence.
Defined.

(** X18: the diffstat does not depend on the order of the files.  When
    [DiffStat] returns on a list of file diffs, it returns the same stat
    on every permutation of the list. *)
Theorem X18_DiffStat_permutation (w : positive) (FileDiff : Type)
        (FileDiff_Stat : FileDiff -> outcome diff.Stat)
        (fds fds' : list FileDiff) (s : diff.Stat) :
  DiffStat w FileDiff_Stat (Some (mkDeltaFiles fds)) = Ret s ->
  fds ≡ₚ fds' ->
  DiffStat w FileDiff_Stat (Some (mkDeltaFiles fds')) = Ret s.
Proof.
  intros H P. rewrite DiffStat_total in H |- *.
  destruct (all_stats FileDiff_Stat fds) as [sts|] eqn:E; [|discriminate H].
  destruct (all_stats_perm _ FileDiff_Stat fds fds' P sts E) as (sts' & -> & Ps).
  rewrite bind_Ret in H |- *.
  now rewrite <- !(total_perm _ sts sts' Ps).
Qed.

Lemma X18_DiffStat_permutation_witness :
  DiffStat 32 (fun st : diff.Stat => Ret st)
    (Some (mkDeltaFiles [diff.mkStat 10 20 30; diff.mkStat 1 2 3]))
  = Ret (diff.mkStat 11 22 33).
Proof.
  apply (X18_DiffStat_permutation 32 diff.Stat (fun st => Ret st)
           [diff.mkStat 1 2 3; diff.mkStat 10 20 30]
           [diff.mkStat 10 20 30; diff.mkStat 1 2 3]).
  - reflexivity.
  - apply perm_swap.
Defined.

(** X19: the diffstat of two lists of files put together.  When
    [DiffStat] returns [s1] on one list of file diffs and [s2] on
    another, on their concatenation it returns the counter-wise wrapped
    sum of [s1] and [s2]. *)
Theorem X19_DiffStat_append (w : positive) (FileDiff : Type)
        (FileDiff_Stat : FileDiff -> outcome diff.Stat)
        (l1 l2 : list FileDiff) (s1 s2 : diff.Stat) :
  DiffStat w FileDiff_Stat (Some (mkDeltaFiles l1)) = Ret s1 ->
  DiffStat w FileDiff_Stat (Some (mkDeltaFiles l2)) = Ret s2 ->
  DiffStat w FileDiff_Stat (Some (mkDeltaFiles (l1 ++ l2)))
  = Ret (diff.accumulate w s1 s2).
Proof.
  intros H1 H2. rewrite DiffStat_total in H1, H2 |- *.
  rewrite all_stats_app.
  destruct (all_stats FileDiff_Stat l1) as [t1|]; [|discriminate H1].
  destruct (all_stats FileDiff_Stat l2) as [t2|]; [|discriminate H2].
  rewrite !bind_Ret in *. injection H1 as <-. injection H2 as <-.
  unfold diff.accumulate. cbn [diff.Added diff.Changed diff.Deleted].
  rewrite !total_app, !wrap_add_l.
  rewrite !(Z.add_comm (total _ t1) (diff.wrap w _)), !wrap_add_l.
  f_equal. f_equal; f_equal; lia.
Qed.

Lemma X19_DiffStat_append_witness :
  DiffStat 32 (fun st : diff.Stat => Ret st)
    (Some (mkDeltaFiles ([diff.mkStat 1 2 3] ++ [diff.mkStat 10 20 30])))
  = Ret (diff.accumulate 32 (diff.mkStat 1 2 3) (diff.mkStat 10 20 30)).
Proof.
  apply (X19_DiffStat_append 32 diff.Stat (fun st => Ret st)); reflexivity.
Defined.

(** ** Badges and counters *)

Section html_facts.

Lemma escape_byte_clean (c x : ascii) :
  x = "<"%char \/ x = ">"%char \/ x = "034"%char \/ x = "039"%char ->
  strings.count x (template.escape_byte c) = O.
Proof.
  intro Hx. unfold template.escape_byte.
  destruct (Ascii.eqb_spec c "000");
    [destruct Hx as [->|[->|[->| ->]]]; reflexivity|].
  destruct (Ascii.eqb_spec c "034");
    [destruct Hx as [->|[->|[->| ->]]]; reflexivity|].
  destruct (Ascii.eqb_spec c "039");
    [destruct Hx as [->|[->|[->| ->]]]; reflexivity|].
  destruct (Ascii.eqb_spec c "&");
    [destruct Hx as [->|[->|[->| ->]]]; reflexivity|].
  destruct (Ascii.eqb_spec c "<");
    [destruct Hx as [->|[->|[->| ->]]]; reflexivity|].
  destruct (Ascii.eqb_spec c ">");
    [destruct Hx as [->|[->|[->| ->]]]; reflexivity|].
  cbn [strings.count].
  destruct (Ascii.eqb_spec c x) as [->|]; [|reflexivity].
  destruct Hx as [->|[->|[->| ->]]]; contradiction.
Qed.

Lemma HTMLEscapeString_clean (s : string) (x : ascii) :
  x = "<"%char \/ x = ">"%char \/ x = "034"%char \/ x = "039"%char ->
  strings.count x (template.HTMLEscapeString s) = O.
Proof.
  intro Hx. induction s as [|c s IH]; [reflexivity|].
  cbn [template.HTMLEscapeString]. now rewrite count_app, escape_byte_clean, IH.
Qed.

Lemma img_tag_counts (src alt : string) :
  (forall x, x = "<"%char \/ x = ">"%char \/ x = "034"%char \/ x = "039"%char ->
             strings.count x src = O /\ strings.count x alt = O) ->
  strings.count "<" (img_tag src alt) = 1%nat
  /\ strings.count ">" (img_tag src alt) = 1%nat
  /\ strings.count "034" (img_tag src alt) = 4%nat
  /\ strings.count "039" (img_tag src alt) = O.
Proof.
  intro H. unfold img_tag, dquote. rewrite !count_app.
  destruct (H "<"%char) as [-> ->]; [auto|].
  destruct (H ">"%char) as [-> ->]; [auto|].
  destruct (H "034"%char) as [-> ->]; [auto|].
  destruct (H "039"%char) as [-> ->]; [auto|].
  repeat split; reflexivity.
Qed.

End html_facts.

(** X20: field contents cannot add markup to a badge or a counter.
    Whatever the ImageURL and the Name, [HTML] returns a string with
    exactly one less-than sign, one greater-than sign, four double
    quotes (those of the format) and no apostrophe; on a nil receiver it
    panics. *)
Theorem X20_HTML_markup (b : Badge) (c : Counter) :
  (exists h, Badge_HTML (Some b) = Ret h
             /\ strings.count "<" h = 1%nat /\ strings.count ">" h = 1%nat
             /\ strings.count "034" h = 4%nat /\ strings.count "039" h = O)
  /\ (exists h, Counter_HTML (Some c) = Ret h
                /\ strings.count "<" h = 1%nat /\ strings.count ">" h = 1%nat
                /\ strings.count "034" h = 4%nat /\ strings.count "039" h = O)
  /\ panics (Badge_HTML None) /\ panics (Counter_HTML None).
Proof.
  split; [|split; [|split; exact I]].
  - eexists. split; [reflexivity|]. apply img_tag_counts.
    intros x Hx. split; now apply HTMLEscapeString_clean.
  - eexists. split; [reflexivity|]. apply img_tag_counts.
    intros x Hx. split; now apply HTMLEscapeString_clean.
Qed.
